(** * youtube-sync: the per-room synchronisation state machine

    A shallow embedding of [server/server.py]: the [Guild] class (queue,
    media state, membership, the lazily reconciled playback clock, the
    action handlers) and the body of the message loop of [counter].

    Conventions of the embedding.
    - Python [int] is [Z]; a [datetime] is the number of microseconds since
      the epoch, an integer; [int(delta.total_seconds())] truncates towards
      zero, which is [Z.quot] by 1000000.
    - [datetime.datetime.now()] is an oracle: the world carries the sequence
      of readings [wall] and the number [ticks] of readings consumed so far.
    - [ytmusic] is an oracle as well: [get_song] and [search] are fields of
      the environment.
    - Handlers run in a state-and-exception monad.  A raised exception does
      not undo the mutations made before it, as in Python.
    - [json.dumps] is not modelled: an outbound message is a structured
      [event]; [websocket.send] appends to the world's [outbox].
    - Logging is left out, except where formatting the log line can raise
      (the subscript in [action_remove]). *)

From Stdlib Require Import ZArith Lia Bool.
From stdpp Require Import gmap strings list.

#[local] Set Warnings "-register-all".
#[local] Open Scope Z_scope.

(** ** Data *)

(** A value produced by [json.loads]. A float keeps its literal only. *)
Inductive json :=
| JNull
| JBool (b : bool)
| JInt (z : Z)
| JFloat (literal : string)
| JStr (s : string)
| JArr (l : list json)
| JObj (kvs : list (string * json)).

(** The handle of a websocket connection. *)
Definition conn := nat.
Bind Scope nat_scope with conn.

(** [hash(websocket)] *)
Definition hash (ws : conn) : Z := Z.of_nat ws.

(** An entry of [Guild.queue], the dict [song_metadata]. *)
Record QueueItem := {
  item_url : string;
  item_title : string;
  item_artist : string;
  item_length : Z;
  item_art : string
}.

(** [Guild.media_state] *)
Record MediaState := {
  current_time : Z;
  ms_length : Z;
  playing : bool;
  queue_index : Z
}.

(** A value of [Guild.users]: the keys [id] and [finished] are always there,
    the three profile keys may be absent. *)
Record User := {
  user_id : Z;
  finished : bool;
  name : option json;
  identifier : option json;
  art : option json
}.

Record Guild := {
  guild_id : string;
  users : list (conn * User);      (* a dict, in insertion order *)
  media_state : MediaState;
  last_update_time : Z;
  was_paused : bool;
  queue : list QueueItem;
  time_paused : option Z           (* attribute created by action_jump *)
}.

(** Outbound messages, before [json.dumps]. *)
Inductive event :=
| EvState (m : MediaState)
| EvUsers (count : nat) (us : list User)
| EvQueue (q : list QueueItem)
| EvError (error message : string).

(** What [ytmusic.get_song(id)["videoDetails"]] holds. *)
Record VideoDetails := {
  vd_videoId : string;
  vd_title : string;
  vd_author : string;
  vd_lengthSeconds : Z;            (* int(song["lengthSeconds"]) *)
  vd_thumbnail : string            (* song["thumbnails"][0]["url"] *)
}.

(** An element of [ytmusic.search(query, "songs")]. *)
Record SearchSong := {
  ss_videoId : string;
  ss_title : string;
  ss_artists : list string;        (* a["name"] for a in song["artists"] *)
  ss_duration : list Z;            (* int(p) for p in song["duration"].split(":") *)
  ss_thumbnail : string
}.

Record Env := {
  wall : nat -> Z;                            (* readings of datetime.now() *)
  get_song : json -> option VideoDetails;     (* None: no "videoDetails" key *)
  search : json -> list SearchSong
}.

Record World := {
  guild : Guild;
  env : Env;
  ticks : nat;
  outbox : list (conn * event)
}.

(** ** Python containers *)

Section Dict.
Context {V : Type}.

(** [d[k]] and [k in d] *)
Fixpoint dict_get (k : conn) (d : list (conn * V)) : option V :=
  match d with
  | [] => None
  | (k', v) :: d' => if Nat.eqb k k' then Some v else dict_get k d'
  end.

(** [d[k] = v]: an existing key keeps its place, a new one goes last. *)
Fixpoint dict_set (k : conn) (v : V) (d : list (conn * V)) : list (conn * V) :=
  match d with
  | [] => [(k, v)]
  | (k', v') :: d' =>
      if Nat.eqb k k' then (k', v) :: d' else (k', v') :: dict_set k v d'
  end.

(** [d.pop(k, None)] *)
Fixpoint dict_pop (k : conn) (d : list (conn * V)) : list (conn * V) :=
  match d with
  | [] => []
  | (k', v') :: d' =>
      if Nat.eqb k k' then dict_pop k d' else (k', v') :: dict_pop k d'
  end.

End Dict.

(** The position a Python subscript [l[i]] refers to: negative subscripts
    count from the end; [None] is [IndexError]. *)
Definition py_index {A} (l : list A) (i : Z) : option nat :=
  let n := Z.of_nat (length l) in
  if 0 <=? i then (if i <? n then Some (Z.to_nat i) else None)
  else (if - n <=? i then Some (Z.to_nat (n + i)) else None).

(** [", ".join(parts)] *)
Fixpoint join_comma (parts : list string) : string :=
  match parts with
  | [] => ""
  | [p] => p
  | p :: rest => p ++ ", " ++ join_comma rest
  end.

(** [sum(i * p for i, p in zip(units, fields))] *)
Fixpoint sum_zip (units fields : list Z) : Z :=
  match units, fields with
  | u :: units', p :: fields' => u * p + sum_zip units' fields'
  | _, _ => 0
  end.

(** ** The monad of handlers *)

Inductive exn :=
| AssertionError | KeyError | IndexError | AttributeError
| TypeError | UnicodeDecodeError | RecursionError.

Inductive outcome (A : Type) :=
| Done (a : A)
| Raised (e : exn).
Arguments Done {A} a.
Arguments Raised {A} e.

Definition M (A : Type) : Type := World -> outcome A * World.

Definition ret {A} (a : A) : M A := fun w => (Done a, w).

Definition bind {A B} (c : M A) (k : A -> M B) : M B :=
  fun w =>
    match c w with
    | (Done a, w') => k a w'
    | (Raised e, w') => (Raised e, w')
    end.

Definition raise {A} (e : exn) : M A := fun w => (Raised e, w).

(** [try: c  except ...: h e] *)
Definition catch {A} (c : M A) (h : exn -> M A) : M A :=
  fun w =>
    match c w with
    | (Done a, w') => (Done a, w')
    | (Raised e, w') => h e w'
    end.

Notation "'let*' x ':=' c 'in' k" := (bind c (fun x => k))
  (at level 10, x name, c at level 100, k at level 200).
Notation "c ';;' k" := (bind c (fun _ => k))
  (at level 100, k at level 200, right associativity).

Definition get_guild : M Guild := fun w => (Done (guild w), w).

Definition put_guild (g : Guild) : M unit :=
  fun w => (Done tt, {| guild := g; env := env w; ticks := ticks w; outbox := outbox w |}).

Definition modify_guild (f : Guild -> Guild) : M unit :=
  let* g := get_guild in put_guild (f g).

Definition get_env : M Env := fun w => (Done (env w), w).

(** [assert b] *)
Definition assert (b : bool) : M unit :=
  if b then ret tt else raise AssertionError.

(** [datetime.datetime.now()] *)
Definition now : M Z :=
  fun w => (Done (wall (env w) (ticks w)),
            {| guild := guild w; env := env w; ticks := S (ticks w); outbox := outbox w |}).

(** [await websocket.send(msg)]; [websocket] is [None] in the jump that
    [action_mark_finished] makes, and [None.send] raises. *)
Definition send (ws : option conn) (msg : event) : M unit :=
  match ws with
  | Some c =>
      fun w => (Done tt, {| guild := guild w; env := env w; ticks := ticks w;
                            outbox := outbox w ++ [(c, msg)] |})
  | None => raise AttributeError
  end.

(** [data[key]] on the request dict *)
Definition subscript (data : gmap string json) (key : string) : M json :=
  match data !! key with
  | Some v => ret v
  | None => raise KeyError
  end.

(** [key in data] *)
Definition has_key (data : gmap string json) (key : string) : bool :=
  match data !! key with Some _ => true | None => false end.

(** ** The Guild class *)

(** [Guild.__init__]; the constructor reads the clock once. *)
Definition Guild_init (id : string) (t : Z) : Guild :=
  {| guild_id := id;
     users := [];
     media_state := {| current_time := 0; ms_length := 0;
                       playing := false; queue_index := -1 |};
     last_update_time := t;
     was_paused := false;
     queue := [];
     time_paused := None |}.

Definition set_media_state (m : MediaState) (g : Guild) : Guild :=
  {| guild_id := guild_id g; users := users g; media_state := m;
     last_update_time := last_update_time g; was_paused := was_paused g;
     queue := queue g; time_paused := time_paused g |}.

Definition set_users (us : list (conn * User)) (g : Guild) : Guild :=
  {| guild_id := guild_id g; users := us; media_state := media_state g;
     last_update_time := last_update_time g; was_paused := was_paused g;
     queue := queue g; time_paused := time_paused g |}.

Definition set_queue (q : list QueueItem) (g : Guild) : Guild :=
  {| guild_id := guild_id g; users := users g; media_state := media_state g;
     last_update_time := last_update_time g; was_paused := was_paused g;
     queue := q; time_paused := time_paused g |}.

Definition set_last_update_time (t : Z) (g : Guild) : Guild :=
  {| guild_id := guild_id g; users := users g; media_state := media_state g;
     last_update_time := t; was_paused := was_paused g;
     queue := queue g; time_paused := time_paused g |}.

Definition set_was_paused (b : bool) (g : Guild) : Guild :=
  {| guild_id := guild_id g; users := users g; media_state := media_state g;
     last_update_time := last_update_time g; was_paused := b;
     queue := queue g; time_paused := time_paused g |}.

Definition set_time_paused (t : Z) (g : Guild) : Guild :=
  {| guild_id := guild_id g; users := users g; media_state := media_state g;
     last_update_time := last_update_time g; was_paused := was_paused g;
     queue := queue g; time_paused := Some t |}.

Definition set_current_time (t : Z) (m : MediaState) : MediaState :=
  {| current_time := t; ms_length := ms_length m;
     playing := playing m; queue_index := queue_index m |}.

Definition set_playing (b : bool) (m : MediaState) : MediaState :=
  {| current_time := current_time m; ms_length := ms_length m;
     playing := b; queue_index := queue_index m |}.

(** [int((later - earlier).total_seconds())], timestamps in microseconds *)
Definition elapsed_seconds (later earlier : Z) : Z :=
  Z.quot (later - earlier) 1000000.

Definition update_media_state_time : M unit :=
  let* g := get_guild in
  (if playing (media_state g) && negb (was_paused g) then
     let* t := now in
     modify_guild (fun g =>
       set_media_state
         (set_current_time
            (Z.min (current_time (media_state g)
                    + elapsed_seconds t (last_update_time g))
                   (ms_length (media_state g)))
            (media_state g)) g)
   else ret tt) ;;
  modify_guild (fun g => set_was_paused (negb (playing (media_state g))) g) ;;
  let* t := now in
  modify_guild (set_last_update_time t).

Definition media_state_event : M event :=
  update_media_state_time ;;
  let* g := get_guild in
  ret (EvState (media_state g)).

Definition users_event : M event :=
  let* g := get_guild in
  ret (EvUsers (length (users g)) (map snd (users g))).

Definition queue_event : M event :=
  let* g := get_guild in
  ret (EvQueue (queue g)).

(** [asyncio.wait] over one [send] task per member; a failing send stays in
    its task and is not raised here. *)
Definition notify_all (msg : event) : M unit :=
  fun w => (Done tt, {| guild := guild w; env := env w; ticks := ticks w;
                        outbox := outbox w ++ map (fun u => (fst u, msg)) (users (guild w)) |}).

Definition register (websocket : conn) : M unit :=
  modify_guild (fun g =>
    set_users (dict_set websocket
                 {| user_id := hash websocket; finished := true;
                    name := None; identifier := None; art := None |}
                 (users g)) g) ;;
  let* e := users_event in
  notify_all e ;;
  let* e := queue_event in
  send (Some websocket) e ;;
  let* e := media_state_event in
  send (Some websocket) e.

Definition unregister (websocket : conn) : M unit :=
  modify_guild (fun g => set_users (dict_pop websocket (users g)) g) ;;
  let* e := users_event in
  notify_all e.

(** The keys that [action_set_profile] loops over. *)
Inductive profile_key := KName | KIdentifier | KArt.

Definition key_string (k : profile_key) : string :=
  match k with
  | KName => "name"
  | KIdentifier => "identifier"
  | KArt => "art"
  end.

(** [user[key] = v] for [v = Some _], [user.pop(key, None)] for [None] *)
Definition set_profile_key (k : profile_key) (v : option json) (u : User) : User :=
  match k with
  | KName =>
      {| user_id := user_id u; finished := finished u;
         name := v; identifier := identifier u; art := art u |}
  | KIdentifier =>
      {| user_id := user_id u; finished := finished u;
         name := name u; identifier := v; art := art u |}
  | KArt =>
      {| user_id := user_id u; finished := finished u;
         name := name u; identifier := identifier u; art := v |}
  end.

(** [self.users[websocket]], a [KeyError] for a stranger *)
Definition user_of (websocket : conn) : M User :=
  let* g := get_guild in
  match dict_get websocket (users g) with
  | Some u => ret u
  | None => raise KeyError
  end.

Definition update_user (websocket : conn) (f : User -> User) : M unit :=
  let* u := user_of websocket in
  modify_guild (fun g => set_users (dict_set websocket (f u) (users g)) g).

Fixpoint for_keys (keys : list profile_key) (body : profile_key -> M unit) : M unit :=
  match keys with
  | [] => ret tt
  | k :: keys' => body k ;; for_keys keys' body
  end.

Definition action_set_profile (websocket : conn) (data : gmap string json) : M unit :=
  for_keys [KName; KIdentifier; KArt] (fun key =>
    assert true ;;                        (* type(key) == str, key a literal *)
    update_user websocket (set_profile_key key (data !! key_string key))) ;;
  let* e := users_event in
  notify_all e.

Definition action_play_pause (websocket : conn) (playing_arg : json) : M unit :=
  match playing_arg with
  | JBool b =>
      modify_guild (fun g => set_media_state (set_playing b (media_state g)) g) ;;
      let* e := media_state_event in
      notify_all e
  | _ => raise AssertionError
  end.

Definition error_event (error message : string) : event := EvError error message.

Definition clear_finished (us : list (conn * User)) : list (conn * User) :=
  map (fun ku => (fst ku, {| user_id := user_id (snd ku); finished := false;
                             name := name (snd ku);
                             identifier := identifier (snd ku);
                             art := art (snd ku) |})) us.

Definition set_finished (u : User) : User :=
  {| user_id := user_id u; finished := true;
     name := name u; identifier := identifier u; art := art u |}.

(** [type(v) == int]: a bool is not an int here *)
Definition as_int (v : json) : M Z :=
  match v with
  | JInt z => ret z
  | _ => raise AssertionError
  end.

Definition action_jump (websocket : option conn) (data : gmap string json) : M unit :=
  let* index_v := subscript data "index" in
  let* index := as_int index_v in
  let* time :=
    (if has_key data "time" then
       let* time_v := subscript data "time" in as_int time_v
     else ret 0) in
  let* g := get_guild in
  let video_index := queue_index (media_state g) + index in
  if negb ((0 <=? video_index) && (video_index <? Z.of_nat (length (queue g)))) then
    send websocket
      (error_event "IndexError" "The index provided is out of bounds of the queue.")
  else
    match queue g !! Z.to_nat video_index with
    | None => raise IndexError
    | Some video =>
        if negb ((0 <=? time) && (time <=? item_length video)) then
          send websocket
            (error_event "TimeLimitExceededError"
               "The seek time specified is greater than the length of the video.")
        else
          (* reset internal state variables *)
          modify_guild (fun g => set_users (clear_finished (users g)) g) ;;
          modify_guild (set_time_paused 0) ;;
          let* t := now in
          modify_guild (set_last_update_time t) ;;
          modify_guild (set_media_state
            {| current_time := time;
               ms_length := item_length video;
               playing := true;
               queue_index := video_index |}) ;;
          let* e := media_state_event in
          notify_all e
    end.

(** The record built from [ytmusic.get_song(...)["videoDetails"]] *)
Definition metadata_of_details (song : VideoDetails) : QueueItem :=
  {| item_url := "https://youtube.com/embed/" ++ vd_videoId song;
     item_title := vd_title song;
     item_artist := vd_author song;
     item_length := vd_lengthSeconds song;
     item_art := vd_thumbnail song |}.

(** The record built from the first result of [ytmusic.search] *)
Definition metadata_of_search (song : SearchSong) : QueueItem :=
  {| item_url := "https://youtube.com/embed/" ++ ss_videoId song;
     item_title := ss_title song;
     item_artist := join_comma (ss_artists song);
     item_length := sum_zip [1; 60; 3600] (rev (ss_duration song));
     item_art := ss_thumbnail song |}.

(** The part of [action_add] after the metadata is there (lines 147-161). *)
Definition enqueue (websocket : conn) (song_metadata : QueueItem) : M unit :=
  (* play immediately only if we're on last song and (internally) song has ended *)
  update_media_state_time ;;
  let* g := get_guild in
  let play_immediately :=
    (queue_index (media_state g) =? Z.of_nat (length (queue g)) - 1)
    && (current_time (media_state g) =? ms_length (media_state g)) in
  modify_guild (fun g => set_queue (queue g ++ [song_metadata]) g) ;;
  let* e := queue_event in
  notify_all e ;;
  if play_immediately then
    action_jump (Some websocket) {[ "index" := JInt 1 ]}
  else ret tt.

Definition action_add (websocket : conn) (data : gmap string json) : M unit :=
  assert (has_key data "query" || has_key data "video_id") ;;
  let* e := get_env in
  if has_key data "url" then
    let* found :=
      catch
        (let* video_id := subscript data "video_id" in
         match get_song e video_id with
         | Some song => ret (Some song)
         | None => raise KeyError
         end)
        (fun x => match x with
                  | KeyError => ret None
                  | _ => raise x
                  end) in
    match found with
    | None =>
        send (Some websocket)
          (error_event "InvalidVideoError"
             "The video ID provided was not a valid video.")
    | Some song => enqueue websocket (metadata_of_details song)
    end
  else
    let* query := subscript data "query" in
    match search e query with
    | [] => raise IndexError
    | song :: _ => enqueue websocket (metadata_of_search song)
    end.

Definition action_remove (websocket : conn) (index_v : json) : M unit :=
  let* index := as_int index_v in
  assert (negb (index =? 0)) ;;
  let* g := get_guild in
  match py_index (queue g) index with
  | None =>                               (* except IndexError *)
      send (Some websocket)
        (error_event "IndexError" "The index provided is out of bounds.")
  | Some n =>
      modify_guild (fun g => set_queue (delete n (queue g)) g) ;;   (* del self.queue[index] *)
      let* e := queue_event in
      notify_all e
  end.

(** [sum(self.users[u]["finished"] for u in self.users)] *)
Definition sum_finished (us : list (conn * User)) : Z :=
  fold_right (fun ku acc => (if finished (snd ku) then 1 else 0) + acc) 0 us.

Definition action_mark_finished (websocket : conn) : M unit :=
  update_user websocket set_finished ;;
  let* g := get_guild in
  if sum_finished (users g) =? Z.of_nat (length (users g)) then
    modify_guild (fun g => set_users (clear_finished (users g)) g) ;;
    let* g := get_guild in
    if negb (queue_index (media_state g) =? Z.of_nat (length (queue g)) - 1) then
      (* if there are more items in the queue *)
      action_jump None {[ "index" := JInt 1 ]}
    else ret tt                           (* otherwise do nothing *)
  else ret tt.

(** ** The message loop of [counter] *)

(** What [json.loads(message)] makes of a frame:
    - [Undecodable]: it raises JSONDecodeError;
    - [Decoded data]: it returns a dict;
    - [NotAnObject]: it returns a list, a string, a number, a boolean or
      [None], on which [data["action"]] is a TypeError;
    - [Unloadable e]: it raises [e], not a JSONDecodeError (UnicodeDecodeError
      for a binary frame in no Unicode encoding, RecursionError for a frame
      nested too deep). *)
Inductive message :=
| Undecodable
| Decoded (data : gmap string json)
| NotAnObject
| Unloadable (e : exn).

(** [action == literal], for whatever [data["action"]] holds *)
Definition is_str (v : json) (literal : string) : bool :=
  match v with
  | JStr s => String.eqb s literal
  | _ => false
  end.

Definition dispatch (websocket : conn) (action : json) (data : gmap string json) : M unit :=
  if is_str action "set_profile" then
    action_set_profile websocket data
  else if is_str action "play" || is_str action "pause" then
    action_play_pause websocket (JBool (is_str action "play"))
  else if is_str action "add" then
    action_add websocket data
  else if is_str action "remove" then
    let* index := subscript data "index" in
    action_remove websocket index
  else if is_str action "jump" then
    action_jump (Some websocket) data
  else if is_str action "finished" then
    action_mark_finished websocket
  else
    send (Some websocket) (error_event "RequestError" "Invalid action given.").

(** One turn of [async for message in websocket].  The first [try] catches
    KeyError and JSONDecodeError only: what else it raises leaves the loop. *)
Definition handle_message (websocket : conn) (msg : message) : M unit :=
  match msg with
  | Undecodable =>
      send (Some websocket) (error_event "RequestError" "No action given.")
  | NotAnObject => raise TypeError
  | Unloadable KeyError =>
      send (Some websocket) (error_event "RequestError" "No action given.")
  | Unloadable e => raise e
  | Decoded data =>
      match data !! "action" with
      | None =>
          send (Some websocket) (error_event "RequestError" "No action given.")
      | Some action =>
          catch (dispatch websocket action data)
            (fun x =>
               match x with
               | KeyError | AssertionError =>
                   send (Some websocket)
                     (error_event "RequestError" "Malformed request.")
               | _ =>
                   send (Some websocket)
                     (error_event "Error" "An unexpected error occurred.")
               end)
      end
  end.

(** The world a handler leaves, and what it sent. *)
Definition exec {A} (c : M A) (w : World) : World := snd (c w).
Definition result {A} (c : M A) (w : World) : outcome A := fst (c w).

(** The messages a handler appended to the outbox. *)
Definition sent {A} (c : M A) (w : World) : list (conn * event) :=
  drop (length (outbox w)) (outbox (exec c w)).

(** * Worlds, normal forms and predicates used in the statements *)

(** ** Requests and outboxes *)

(** [w] with another outbox *)
Definition with_outbox (w : World) (o : list (conn * event)) : World :=
  {| guild := guild w; env := env w; ticks := ticks w; outbox := o |}.

(** What [notify_all] appends: one copy of the event per member *)
Definition broadcast (g : Guild) (e : event) : list (conn * event) :=
  map (fun u => (fst u, e)) (users g).

(** A request as the client writes it. *)
Definition dict_of (fields : list (string * json)) : gmap string json :=
  list_to_map (rev fields).            (* of a repeated key the last one counts *)

Definition request (fields : list (string * json)) : message :=
  Decoded (dict_of fields).

(** A message from [ws], handled by the loop *)
Definition say (ws : conn) (fields : list (string * json)) : M unit :=
  handle_message ws (request fields).

(** The action named by a message, if any. *)
Definition action_of (msg : message) : option json :=
  match msg with
  | Decoded data => data !! "action"
  | _ => None
  end.

(** ** Worlds that the handlers leave *)

(** The test that guards the advance in [update_media_state_time] *)
Definition advancing (g : Guild) : bool :=
  playing (media_state g) && negb (was_paused g).

(** The seek time a jump request asks for: [Some] of the default 0 or of an
    integer ["time"], [None] when ["time"] is there and not an integer. *)
Definition requested_time (data : gmap string json) : option Z :=
  match data !! "time" with
  | None => Some 0
  | Some (JInt t) => Some t
  | Some _ => None
  end.

(** [0 <= i < len(self.queue)] *)
Definition in_queue (g : Guild) (i : Z) : bool :=
  (0 <=? i) && (i <? Z.of_nat (length (queue g))).

(** The world in which a successful jump hands over to the broadcast. *)
Definition jump_assigned (w : World) (time video_index : Z) (video : QueueItem) : World :=
  {| guild :=
       set_media_state
         {| current_time := time; ms_length := item_length video;
            playing := true; queue_index := video_index |}
         (set_last_update_time (wall (env w) (ticks w))
            (set_time_paused 0
               (set_users (clear_finished (users (guild w))) (guild w))));
     env := env w; ticks := S (ticks w); outbox := outbox w |}.

(** The world a successful jump leaves: the reconciliation inside
    [media_state_event], then the broadcast. *)
Definition jumped (w : World) (time video_index : Z) (video : QueueItem) : World :=
  let w2 := exec update_media_state_time (jump_assigned w time video_index video) in
  with_outbox w2 (outbox w2 ++ broadcast (guild w2) (EvState (media_state (guild w2)))).

(** The world after a deletion at position [n] and its broadcast. *)
Definition removed (w : World) (n : nat) : World :=
  let g := set_queue (delete n (queue (guild w))) (guild w) in
  {| guild := g; env := env w; ticks := ticks w;
     outbox := outbox w ++ broadcast g (EvQueue (queue g)) |}.

(** The world after the reconciliation, the append and the queue broadcast
    of [action_add], where the decision to play the new item is taken up. *)
Definition appended (w : World) (item : QueueItem) : World :=
  let w1 := exec update_media_state_time w in
  let g := set_queue (queue (guild w1) ++ [item]) (guild w1) in
  {| guild := g; env := env w1; ticks := ticks w1;
     outbox := outbox w1 ++ broadcast g (EvQueue (queue g)) |}.

(** [play_immediately], read off the reconciled world before the append *)
Definition play_immediately (w1 : World) : bool :=
  (queue_index (media_state (guild w1)) =? Z.of_nat (length (queue (guild w1))) - 1)
  && (current_time (media_state (guild w1)) =? ms_length (media_state (guild w1))).

(** The resolver has an answer for the request, and [item] is the record
    the handler builds from it. *)
Definition resolves (e : Env) (data : gmap string json) (item : QueueItem) : Prop :=
  (data !! "url" = None
   /\ exists query song rest,
        data !! "query" = Some query
        /\ search e query = song :: rest
        /\ item = metadata_of_search song)
  \/ (is_Some (data !! "url")
      /\ exists video_id song,
           data !! "video_id" = Some video_id
           /\ get_song e video_id = Some song
           /\ item = metadata_of_details song).

(** The room once the caller's flag is set. *)
Definition marked (w : World) (ws : conn) (u : User) : World :=
  {| guild := set_users (dict_set ws (set_finished u) (users (guild w))) (guild w);
     env := env w; ticks := ticks w; outbox := outbox w |}.

(** The room once everybody has finished and the flags are cleared again. *)
Definition cleared (w : World) (ws : conn) (u : User) : World :=
  {| guild := set_users (clear_finished (users (guild (marked w ws u)))) (guild w);
     env := env w; ticks := ticks w; outbox := outbox w |}.

(** ** The room invariant *)

Definition time_bounds (g : Guild) : Prop :=
  0 <= current_time (media_state g) <= ms_length (media_state g).

Definition index_valid (g : Guild) : Prop :=
  queue_index (media_state g) = -1
  \/ 0 <= queue_index (media_state g) < Z.of_nat (length (queue g)).

Definition length_matches (g : Guild) : Prop :=
  0 <= queue_index (media_state g) ->
  exists video,
    queue g !! Z.to_nat (queue_index (media_state g)) = Some video
    /\ ms_length (media_state g) = item_length video.

Definition room_invariant (g : Guild) : Prop :=
  time_bounds g /\ index_valid g /\ length_matches g.

(** The clock does not run backwards, and the stored update time is not
    ahead of the next reading. *)
Definition clock_ok (w : World) : Prop :=
  (forall i j, (i <= j)%nat -> wall (env w) i <= wall (env w) j)
  /\ last_update_time (guild w) <= wall (env w) (ticks w).

Definition Good (w : World) : Prop := room_invariant (guild w) /\ clock_ok w.

(** The bounds on the current time, with the clock they rely on *)
Definition timing_ok (w : World) : Prop := time_bounds (guild w) /\ clock_ok w.

(** A handler that keeps [P], however it ends. *)
Definition stable (P : World -> Prop) {A} (c : M A) : Prop :=
  forall w, P w -> P (exec c w).

(** The position a remove request deletes at, if it deletes at all: the
    index is there, is an integer other than 0, and is a subscript of the
    queue. *)
Definition removal_position (g : Guild) (data : gmap string json) : option nat :=
  match data !! "index" with
  | Some (JInt i) => if i =? 0 then None else py_index (queue g) i
  | _ => None
  end.

(** What remove never touches. *)
Definition same_playback (w w' : World) : Prop :=
  media_state (guild w') = media_state (guild w)
  /\ last_update_time (guild w') = last_update_time (guild w)
  /\ env w' = env w
  /\ ticks w' = ticks w.

(** ** Sample worlds *)

Definition track (title : string) (seconds : Z) : QueueItem :=
  {| item_url := "https://youtube.com/embed/" ++ title;
     item_title := title; item_artist := "artist";
     item_length := seconds; item_art := "art" |}.

Definition member (ws : conn) (fin : bool) : conn * User :=
  (ws, {| user_id := hash ws; finished := fin;
          name := None; identifier := None; art := None |}).

(** A clock that is read every thirty seconds, and one read every
    millisecond. *)
Definition every_30s (n : nat) : Z := 30000000 * Z.of_nat n.
Definition every_ms (n : nat) : Z := 1000 * Z.of_nat n.

Definition sample_song : SearchSong :=
  {| ss_videoId := "x"; ss_title := "x"; ss_artists := ["a"; "b"];
     ss_duration := [3; 20]; ss_thumbnail := "art" |}.

(** A resolver that knows one video id and answers every query with one
    200-second song. *)
Definition sample_env (clock : nat -> Z) : Env :=
  {| wall := clock;
     get_song := fun v =>
       match v with
       | JStr "dQw4w9WgXcQ" =>
           Some {| vd_videoId := "dQw4w9WgXcQ"; vd_title := "t";
                   vd_author := "a"; vd_lengthSeconds := 212;
                   vd_thumbnail := "art" |}
       | _ => None
       end;
     search := fun _ => [sample_song] |}.

(** Two listeners, the first of two tracks playing since the clock read 0. *)
Definition playing_guild : Guild :=
  {| guild_id := "abc";
     users := [member 1 false; member 2 false];
     media_state := {| current_time := 0; ms_length := 200;
                       playing := true; queue_index := 0 |};
     last_update_time := 0;
     was_paused := false;
     queue := [track "a" 200; track "b" 100];
     time_paused := Some 0 |}.

Definition world_at (clock : nat -> Z) (g : Guild) : World :=
  {| guild := g; env := sample_env clock; ticks := 1%nat; outbox := [] |}.

Definition playing_world : World := world_at every_30s playing_guild.

(** One listener joins a new room, adds two songs (the first starts at
    once), and skips to the second. *)
Definition two_songs : World :=
  exec (register 1 ;;
        say 1 [("action", JStr "add"); ("query", JStr "x")] ;;
        say 1 [("action", JStr "add"); ("query", JStr "y")] ;;
        say 1 [("action", JStr "jump"); ("index", JInt 1)])
       (world_at every_ms (Guild_init "abc" 0)).

(** Then the second song, the one playing, is removed. *)
Definition second_removed : World :=
  exec (say 1 [("action", JStr "remove"); ("index", JInt 1)]) two_songs.

(** ** More of the server: polling, relations between worlds *)

(** [n] reads of the media state in a row, as joins or repeated requests
    cause them. *)
Fixpoint poll (n : nat) : M unit :=
  match n with
  | O => ret tt
  | S n' => media_state_event ;; poll n'
  end.

(** A handler that relates every world to the one it leaves. *)
Definition keeps (R : World -> World -> Prop) {A} (c : M A) : Prop :=
  forall w, R w (exec c w).

(** The connections that are members, in the order they joined *)
Definition members (g : Guild) : list conn := map fst (users g).

(** The same members, in the same room *)
Definition same_members (w w' : World) : Prop :=
  members (guild w') = members (guild w)
  /\ guild_id (guild w') = guild_id (guild w).

Definition is_error (e : event) : bool :=
  match e with
  | EvError _ _ => true
  | _ => false
  end.

(** The outbox has only grown, and every error event added to it is
    addressed to [ws]. *)
Definition errors_only_to (ws : conn) (w w' : World) : Prop :=
  exists extra,
    outbox w' = outbox w ++ extra
    /\ Forall (fun ce => is_error (snd ce) = true -> fst ce = ws) extra.

(** The profile a request asks for *)
Definition profile_of (data : gmap string json) (u : User) : User :=
  {| user_id := user_id u; finished := finished u;
     name := data !! "name"; identifier := data !! "identifier";
     art := data !! "art" |}.

(** What [register] stores for a connection *)
Definition newcomer (ws : conn) : User :=
  {| user_id := hash ws; finished := true;
     name := None; identifier := None; art := None |}.

(** What [users_event] reports for a room *)
Definition users_report (g : Guild) : event :=
  EvUsers (length (users g)) (map snd (users g)).

(** [type(v) == int] *)
Definition is_int (v : json) : bool :=
  match v with
  | JInt _ => true
  | _ => false
  end.

(** The exception a frame ends the loop with, if it does: what the first
    [try] of the loop does not catch *)
Definition frame_error (msg : message) : option exn :=
  match msg with
  | NotAnObject => Some TypeError
  | Unloadable KeyError => None
  | Unloadable e => Some e
  | _ => None
  end.

(** The exception the loop ends with over a list of frames, if it does:
    that of the first frame that has one *)
Fixpoint first_frame_error (msgs : list message) : option exn :=
  match msgs with
  | [] => None
  | msg :: rest =>
      match frame_error msg with
      | Some e => Some e
      | None => first_frame_error rest
      end
  end.

(** The seven action names *)
Definition known_action (action : json) : bool :=
  is_str action "set_profile" || is_str action "play" || is_str action "pause"
  || is_str action "add" || is_str action "remove" || is_str action "jump"
  || is_str action "finished".

(** ** The registry and the connection handler [counter] *)

(** [Guild] objects are told apart by a reference; [guilds] maps a room name
    to the reference of its object, and a connection keeps the reference it
    was handed in its local [guild]. *)
Definition ref := nat.
Bind Scope nat_scope with ref.

Record Server := {
  objects : ref -> Guild;                (* the object behind a reference *)
  allocated : nat;                       (* references handed out so far *)
  guilds : gmap string ref;              (* the global dict [guilds] *)
  s_env : Env;
  s_ticks : nat;
  s_outbox : list (conn * event)
}.

(** A method of the object [r], run in the server *)
Definition on_guild {A} (r : ref) (c : M A) (s : Server) : outcome A * Server :=
  let w := {| guild := objects s r; env := s_env s;
              ticks := s_ticks s; outbox := s_outbox s |} in
  (fst (c w),
   {| objects := fun r' => if Nat.eqb r' r then guild (snd (c w)) else objects s r';
      allocated := allocated s;
      guilds := guilds s;
      s_env := env (snd (c w));
      s_ticks := ticks (snd (c w));
      s_outbox := outbox (snd (c w)) |}).

(** [s.find(sub)] *)
Definition str_find (sub s : string) : Z :=
  match String.index 0 sub s with
  | Some p => Z.of_nat p
  | None => -1
  end.

(** [s[i:]] *)
Definition str_from (s : string) (i : Z) : string :=
  let len := Z.of_nat (String.length s) in
  let start := Z.to_nat (if i <? 0 then Z.max (len + i) 0 else i) in
  String.substring start (String.length s - start) s.

(** How [counter] gets past its first lines: the connection is turned away,
    or it has joined the object [r] registered as [room]. *)
Inductive opening :=
| Refused
| Joined (r : ref) (room : string).

(** [guilds[guild_id] = Guild(guild_id)] *)
Definition new_guild (guild_id : string) (s : Server) : ref * Server :=
  (allocated s,
   {| objects := fun r' =>
        if Nat.eqb r' (allocated s)
        then Guild_init guild_id (wall (s_env s) (s_ticks s))
        else objects s r';
      allocated := S (allocated s);
      guilds := <[guild_id := allocated s]> (guilds s);
      s_env := s_env s;
      s_ticks := S (s_ticks s);
      s_outbox := s_outbox s |}).

(** [counter] up to and including [guild.register(websocket)] *)
Definition counter_open (websocket : conn) (path : string) (s : Server)
    : opening * Server :=
  let guild_index := str_find "?guild=" path + Z.of_nat (String.length "?guild=") in
  if guild_index <? Z.of_nat (String.length "?guild=") then
    (* if index not found *)
    (Refused,
     {| objects := objects s; allocated := allocated s; guilds := guilds s;
        s_env := s_env s; s_ticks := s_ticks s;
        s_outbox := s_outbox s
                    ++ [(websocket,
                         error_event "GuildError" "Guild not specified in path.")] |})
  else
    (* get guild string from url *)
    let guild_id := str_from path guild_index in
    let '(r, s1) :=
      match guilds s !! guild_id with
      | Some r => (r, s)
      | None => new_guild guild_id s
      end in
    (Joined r guild_id, snd (on_guild r (register websocket) s1)).

(** One turn of the message loop of a connection that has joined [r] *)
Definition counter_turn (websocket : conn) (r : ref) (msg : message) (s : Server)
    : Server :=
  snd (on_guild r (handle_message websocket msg) s).

(** The messages of a connection, one turn each, until the connection ends
    or a turn raises. *)
Fixpoint counter_loop (websocket : conn) (r : ref) (msgs : list message)
    (s : Server) : outcome unit * Server :=
  match msgs with
  | [] => (Done tt, s)
  | msg :: rest =>
      match on_guild r (handle_message websocket msg) s with
      | (Done _, s') => counter_loop websocket r rest s'
      | (Raised e, s') => (Raised e, s')
      end
  end.

(** [if not guild.users: guilds.pop(guild_id)], the end of the [finally]
    block; [pop] raises for a missing key. *)
Definition counter_close_finish (r : ref) (guild_id : string) (s : Server)
    : outcome unit * Server :=
  match users (objects s r) with
  | [] =>
      (* if the guild is empty, destroy it *)
      match guilds s !! guild_id with
      | Some _ =>
          (Done tt,
           {| objects := objects s; allocated := allocated s;
              guilds := delete guild_id (guilds s);
              s_env := s_env s; s_ticks := s_ticks s; s_outbox := s_outbox s |})
      | None => (Raised KeyError, s)
      end
  | _ :: _ => (Done tt, s)
  end.

(** How far the [finally] block gets before it lets other connections run:
    [unregister] awaits [notify_all], which waits for its sends when a member
    is left and returns at once when none is. *)
Inductive closing :=
| Closed          (* nobody left: the emptiness test has run as well *)
| Waiting.        (* suspended in [notify_all], the test is still to come *)

(** The [finally] block up to its first suspension *)
Definition counter_close_begin (websocket : conn) (r : ref) (guild_id : string)
    (s : Server) : outcome closing * Server :=
  let s1 := snd (on_guild r (unregister websocket) s) in
  match users (objects s1 r) with
  | [] =>
      match counter_close_finish r guild_id s1 with
      | (Done _, s2) => (Done Closed, s2)
      | (Raised e, s2) => (Raised e, s2)
      end
  | _ :: _ => (Done Waiting, s1)
  end.

(** The [finally] block when no other connection runs while it waits *)
Definition counter_close (websocket : conn) (r : ref) (guild_id : string)
    (s : Server) : outcome unit * Server :=
  match counter_close_begin websocket r guild_id s with
  | (Done Closed, s1) => (Done tt, s1)
  | (Done Waiting, s1) => counter_close_finish r guild_id s1
  | (Raised e, s1) => (Raised e, s1)
  end.

(** A connection from its opening to its close, with the frames it sends,
    in the schedule where no other connection runs in between.  A turn that
    raises ends the loop; the [finally] block runs all the same, and the
    exception goes on unless the block raises one of its own. *)
Definition counter (websocket : conn) (path : string) (msgs : list message)
    (s : Server) : outcome unit * Server :=
  match counter_open websocket path s with
  | (Refused, s1) => (Done tt, s1)
  | (Joined r guild_id, s1) =>
      let '(looped, s2) := counter_loop websocket r msgs s1 in
      let '(closed, s3) := counter_close websocket r guild_id s2 in
      (match closed with
       | Raised e => Raised e
       | Done _ => looped
       end, s3)
  end.

(** Every registered room has been allocated, has a member and is
    registered under its own name; and every room that has a member is the
    one registered under its name. *)
Definition registry_ok (s : Server) : Prop :=
  (forall room r,
     guilds s !! room = Some r ->
     (r < allocated s)%nat
     /\ users (objects s r) <> []
     /\ guild_id (objects s r) = room)
  /\ (forall r,
        users (objects s r) <> [] ->
        (r < allocated s)%nat
        /\ guilds s !! guild_id (objects s r) = Some r).

(** The rest of a path from position [p] on *)
Definition rest_from (p : nat) (path : string) : string :=
  String.substring p (String.length path - p) path.

(** The world a method of the object [r] runs in *)
Definition world_of (s : Server) (r : ref) : World :=
  {| guild := objects s r; env := s_env s; ticks := s_ticks s; outbox := s_outbox s |}.

(** The room name [counter] reads off a path *)
Definition room_of_path (path : string) : option string :=
  match String.index 0 "?guild=" path with
  | Some p => Some (rest_from (p + 7) path)
  | None => None
  end.

(** A server in which nobody has connected yet *)
Definition empty_server (e : Env) : Server :=
  {| objects := fun _ => Guild_init "" 0;
     allocated := 0;
     guilds := ∅;
     s_env := e;
     s_ticks := 0;
     s_outbox := [] |}.

(** * Properties *)

(** ** The clock *)

Lemma update_media_state_time_run w :
  update_media_state_time w =
  (Done tt,
   if advancing (guild w) then
     {| guild :=
          set_last_update_time (wall (env w) (S (ticks w)))
            (set_was_paused (negb (playing (media_state (guild w))))
               (set_media_state
                  (set_current_time
                     (Z.min (current_time (media_state (guild w))
                             + elapsed_seconds (wall (env w) (ticks w))
                                 (last_update_time (guild w)))
                            (ms_length (media_state (guild w))))
                     (media_state (guild w))) (guild w)));
        env := env w; ticks := S (S (ticks w)); outbox := outbox w |}
   else
     {| guild :=
          set_last_update_time (wall (env w) (ticks w))
            (set_was_paused (negb (playing (media_state (guild w)))) (guild w));
        env := env w; ticks := S (ticks w); outbox := outbox w |}).
Proof.
  unfold update_media_state_time, advancing, bind, get_guild.
  destruct (playing (media_state (guild w)) && negb (was_paused (guild w))) eqn:E;
    cbn; reflexivity.
Qed.

Lemma elapsed_seconds_floor later earlier :
  earlier <= later -> elapsed_seconds later earlier = (later - earlier) / 1000000.
Proof.
  intros H. unfold elapsed_seconds. apply Z.quot_div_nonneg; lia.
Qed.

Lemma media_state_event_run w :
  media_state_event w =
  (Done (EvState (media_state (guild (exec update_media_state_time w)))),
   exec update_media_state_time w).
Proof.
  unfold media_state_event, exec, bind.
  rewrite update_media_state_time_run. reflexivity.
Qed.

Lemma action_play_pause_run ws b w :
  action_play_pause ws (JBool b) w =
  let w1 := {| guild := set_media_state (set_playing b (media_state (guild w))) (guild w);
               env := env w; ticks := ticks w; outbox := outbox w |} in
  let w2 := exec update_media_state_time w1 in
  (Done tt,
   {| guild := guild w2; env := env w2; ticks := ticks w2;
      outbox := outbox w2
                ++ map (fun u => (fst u, EvState (media_state (guild w2))))
                     (users (guild w2)) |}).
Proof.
  unfold action_play_pause, bind, modify_guild, get_guild, put_guild, bind.
  cbn. rewrite media_state_event_run. reflexivity.
Qed.

Lemma media_state_event_exec w :
  exec media_state_event w = exec update_media_state_time w.
Proof. unfold exec at 1. rewrite media_state_event_run. reflexivity. Qed.

Lemma update_keeps_time_when_paused w g :
  guild w = g ->
  playing (media_state g) = false ->
  current_time (media_state (guild (exec update_media_state_time w)))
  = current_time (media_state g).
Proof.
  intros <- Hp. unfold exec. rewrite update_media_state_time_run.
  unfold advancing. rewrite Hp. reflexivity.
Qed.

Lemma play_pause_sets_playing ws b w :
  playing (media_state (guild (exec (action_play_pause ws (JBool b)) w))) = b.
Proof.
  unfold exec at 1. rewrite action_play_pause_run. cbn.
  unfold exec. rewrite update_media_state_time_run. unfold advancing. cbn.
  destruct (b && negb (was_paused (guild w))); reflexivity.
Qed.

(** C3. Reconciliation adds the whole seconds elapsed since the last update,
    capped at the track length, exactly when the room is playing and was
    found playing by the previous reconciliation; otherwise the current time
    stays; the last update time becomes the clock reading just taken in
    either case.  After a pause, a later read of the state, at whatever
    clock readings, leaves the current time where the pause left it. *)
Theorem clock_reconciliation (w : World) :
  let g := guild w in
  let m := media_state g in
  let t := wall (env w) (ticks w) in
  last_update_time g <= t ->
  let w' := exec update_media_state_time w in
  result update_media_state_time w = Done tt
  /\ current_time (media_state (guild w')) =
       (if playing m && negb (was_paused g)
        then Z.min (current_time m + (t - last_update_time g) / 1000000) (ms_length m)
        else current_time m)
  /\ (ticks w < ticks w')%nat
  /\ last_update_time (guild w') = wall (env w) (Nat.pred (ticks w'))
  /\ was_paused (guild w') = negb (playing m)
  /\ (forall ws later,
        let paused := exec (action_play_pause ws (JBool false)) w in
        guild later = guild paused ->
        result media_state_event later
          = Done (EvState (media_state (guild (exec media_state_event later))))
        /\ current_time (media_state (guild (exec media_state_event later)))
           = current_time (media_state (guild paused))).
Proof.
  intros g m t Hclock w'.
  assert (Hrun : update_media_state_time w = (Done tt, w'))
    by (unfold w', exec; destruct (update_media_state_time w) as [r w1] eqn:E;
        rewrite update_media_state_time_run in E; inversion E; reflexivity).
  pose proof (update_media_state_time_run w) as Hw'.
  rewrite Hrun in Hw'. injection Hw' as Hw'.
  unfold advancing in Hw'. fold g m in Hw'.
  split; [unfold result; rewrite Hrun; reflexivity|].
  split; [|split; [|split; [|split]]].
  - rewrite Hw'. destruct (playing m && negb (was_paused g)); cbn; [|reflexivity].
    fold t. rewrite elapsed_seconds_floor by exact Hclock. reflexivity.
  - rewrite Hw'. destruct (playing m && negb (was_paused g)); cbn; lia.
  - rewrite Hw'. destruct (playing m && negb (was_paused g)); reflexivity.
  - rewrite Hw'. destruct (playing m && negb (was_paused g)); reflexivity.
  - intros ws later paused Hsame. split.
    + unfold result. rewrite media_state_event_run, media_state_event_exec.
      reflexivity.
    + rewrite media_state_event_exec.
      apply update_keeps_time_when_paused; [exact Hsame|].
      apply play_pause_sets_playing.
Qed.

Lemma clock_reconciliation_witness :
  current_time (media_state (guild (exec update_media_state_time playing_world))) = 30.
Proof.
  assert (H : last_update_time (guild playing_world)
              <= wall (env playing_world) (ticks playing_world))
    by (vm_compute; discriminate).
  destruct (clock_reconciliation playing_world H) as (_ & Hct & _).
  rewrite Hct. reflexivity.
Defined.

(** ** Jumping *)

Lemma action_jump_run ws data i time w :
  data !! "index" = Some (JInt i) ->
  requested_time data = Some time ->
  let target := queue_index (media_state (guild w)) + i in
  action_jump ws data w =
  if in_queue (guild w) target then
    match queue (guild w) !! Z.to_nat target with
    | Some video =>
        if (0 <=? time) && (time <=? item_length video) then
          (Done tt, jumped w time target video)
        else
          send ws (error_event "TimeLimitExceededError"
                     "The seek time specified is greater than the length of the video.") w
    | None => (Raised IndexError, w)
    end
  else
    send ws (error_event "IndexError"
               "The index provided is out of bounds of the queue.") w.
Proof.
  intros Hi Ht target.
  unfold action_jump, subscript, has_key, requested_time in *.
  rewrite Hi.
  assert (Htime :
    (if match data !! "time" with Some _ => true | None => false end
     then let* time_v := match data !! "time" with
                         | Some v => ret v
                         | None => raise KeyError
                         end in as_int time_v
     else ret 0) = ret time).
  { destruct (data !! "time") as [[]|]; try discriminate;
      injection Ht as <-; reflexivity. }
  rewrite Htime. clear Htime.
  unfold bind at 1. cbn [ret as_int].
  unfold bind at 1. cbn [ret as_int].
  unfold bind at 1. cbn [ret].
  unfold bind at 1, get_guild. cbn [fst snd].
  fold target. unfold in_queue.
  destruct ((0 <=? target) && (target <? Z.of_nat (length (queue (guild w))))); cbn [negb];
    [|reflexivity].
  destruct (queue (guild w) !! Z.to_nat target) as [video|]; [|reflexivity].
  destruct ((0 <=? time) && (time <=? item_length video)); cbn [negb]; [|reflexivity].
  unfold jumped, jump_assigned, with_outbox, broadcast.
  unfold bind, modify_guild, get_guild, put_guild, now, notify_all, bind. cbn.
  rewrite media_state_event_run. reflexivity.
Qed.

Lemma in_queue_spec g i :
  in_queue g i = true <-> 0 <= i < Z.of_nat (length (queue g)).
Proof.
  unfold in_queue. rewrite andb_true_iff, Z.leb_le, Z.ltb_lt. reflexivity.
Qed.

Lemma in_queue_lookup g i :
  in_queue g i = true -> exists video, queue g !! Z.to_nat i = Some video.
Proof.
  intros H. apply in_queue_spec in H.
  destruct (lookup_lt_is_Some_2 (queue g) (Z.to_nat i)) as [v Hv]; [|eauto].
  apply Nat2Z.inj_lt. rewrite Z2Nat.id; lia.
Qed.

Lemma lookup_in_queue g i video :
  0 <= i -> queue g !! Z.to_nat i = Some video -> in_queue g i = true.
Proof.
  intros H0 H. apply lookup_lt_Some in H. apply in_queue_spec.
  apply Nat2Z.inj_lt in H. rewrite Z2Nat.id in H; lia.
Qed.

Lemma clear_finished_Forall us :
  Forall (fun ku => finished (snd ku) = false) (clear_finished us).
Proof.
  unfold clear_finished. apply Forall_map, Forall_forall. reflexivity.
Qed.

Lemma clear_finished_keys us :
  map fst (clear_finished us) = map fst us.
Proof.
  unfold clear_finished. rewrite map_map. reflexivity.
Qed.

(** A reconciliation right after the assignments of a jump, with the two
    clock readings less than a second apart, leaves the seek time alone. *)
Lemma jump_assigned_settles w time target video :
  0 <= time <= item_length video ->
  0 <= wall (env w) (S (ticks w)) - wall (env w) (ticks w) < 1000000 ->
  media_state (guild (exec update_media_state_time
                        (jump_assigned w time target video)))
  = {| current_time := time; ms_length := item_length video;
       playing := true; queue_index := target |}.
Proof.
  intros Htime Hgap. unfold exec. rewrite update_media_state_time_run.
  unfold advancing. cbn.
  destruct (was_paused (guild w)); cbn; [reflexivity|].
  unfold set_current_time, elapsed_seconds. cbn.
  rewrite Z.quot_small by lia. f_equal. lia.
Qed.

Lemma update_outbox w :
  outbox (exec update_media_state_time w) = outbox w.
Proof.
  unfold exec. rewrite update_media_state_time_run.
  destruct (advancing (guild w)); reflexivity.
Qed.

Lemma sent_appended {A} (c : M A) w extra :
  outbox (exec c w) = outbox w ++ extra -> sent c w = extra.
Proof.
  intros H. unfold sent. rewrite H. apply drop_app_length.
Qed.

(** C5. A jump request with an integer index, and an integer time or none:
    a target outside the queue earns the requester an IndexError event and
    changes nothing else; a seek time outside the target's length earns a
    TimeLimitExceededError event and changes nothing else; otherwise every
    finished flag is cleared, the media state is the requested one, playing,
    the last update time is the clock reading just taken, and the new state
    is broadcast.  The two clock readings the handler takes in a row are
    taken less than a second apart. *)
Theorem jump_request (w : World) (ws : conn) (data : gmap string json) (i time : Z) :
  data !! "index" = Some (JInt i) ->
  (data !! "time" = None /\ time = 0) \/ data !! "time" = Some (JInt time) ->
  let g := guild w in
  let target := queue_index (media_state g) + i in
  let w' := exec (action_jump (Some ws) data) w in
  (~ 0 <= target < Z.of_nat (length (queue g)) ->
     w' = with_outbox w
            (outbox w ++ [(ws, EvError "IndexError"
                                 "The index provided is out of bounds of the queue.")]))
  /\ (forall video,
        0 <= target -> queue g !! Z.to_nat target = Some video ->
        (~ 0 <= time <= item_length video ->
           w' = with_outbox w
                  (outbox w ++ [(ws, EvError "TimeLimitExceededError"
                                       "The seek time specified is greater than the length of the video.")]))
        /\ (0 <= time <= item_length video ->
            0 <= wall (env w) (S (ticks w)) - wall (env w) (ticks w) < 1000000 ->
            result (action_jump (Some ws) data) w = Done tt
            /\ Forall (fun ku => finished (snd ku) = false) (users (guild w'))
            /\ map fst (users (guild w')) = map fst (users g)
            /\ media_state (guild w')
               = {| current_time := time; ms_length := item_length video;
                    playing := true; queue_index := target |}
            /\ (ticks w < ticks w')%nat
            /\ last_update_time (guild w') = wall (env w) (Nat.pred (ticks w'))
            /\ queue (guild w') = queue g
            /\ sent (action_jump (Some ws) data) w
               = broadcast (guild w') (EvState (media_state (guild w'))))).
Proof.
  intros Hi Ht g target w'.
  assert (Hreq : requested_time data = Some time).
  { unfold requested_time. destruct Ht as [[-> ->]| ->]; reflexivity. }
  pose proof (action_jump_run (Some ws) data i time w Hi Hreq) as Hrun.
  cbn zeta in Hrun. fold g target in Hrun.
  split.
  - intros Hout. unfold w', exec. rewrite Hrun.
    destruct (in_queue g target) eqn:E; [apply in_queue_spec in E; contradiction|].
    reflexivity.
  - intros video H0 Hvideo.
    pose proof (lookup_in_queue g target video H0 Hvideo) as Hin.
    rewrite Hin, Hvideo in Hrun.
    split.
    + intros Hbad. unfold w', exec. rewrite Hrun.
      destruct ((0 <=? time) && (time <=? item_length video)) eqn:E; [|reflexivity].
      apply andb_true_iff in E. rewrite Z.leb_le, Z.leb_le in E. contradiction.
    + intros Hgood Hgap.
      assert (E : (0 <=? time) && (time <=? item_length video) = true)
        by (apply andb_true_iff; rewrite !Z.leb_le; exact Hgood).
      rewrite E in Hrun.
      assert (Hw' : w' = jumped w time target video)
        by (unfold w', exec; rewrite Hrun; reflexivity).
      pose proof (jump_assigned_settles w time target video Hgood Hgap) as Hms.
      split; [unfold result; rewrite Hrun; reflexivity|].
      assert (Hsent : sent (action_jump (Some ws) data) w
                      = broadcast (guild w') (EvState (media_state (guild w')))).
      { apply sent_appended. fold w'. rewrite Hw'. unfold jumped.
        cbn [outbox guild with_outbox]. rewrite update_outbox. reflexivity. }
      rewrite Hsent. clear Hsent.
      rewrite Hw'. unfold jumped. cbn [guild with_outbox ticks].
      rewrite Hms.
      unfold exec. rewrite update_media_state_time_run. unfold advancing.
      cbn [jump_assigned guild media_state set_media_state playing andb
           set_last_update_time set_time_paused set_users was_paused
           env ticks outbox].
      destruct (was_paused (guild w)) eqn:Ewp; cbn;
        (split; [apply clear_finished_Forall|]);
        (split; [apply clear_finished_keys|]);
        (split; [reflexivity|]);
        (split; [lia|]);
        (split; [reflexivity|]);
        (split; [reflexivity|]);
        reflexivity.
Qed.

Lemma jump_request_witness :
  media_state (guild (exec (action_jump (Some 2%nat) {[ "index" := JInt 1 ]})
                        (world_at every_ms playing_guild)))
  = {| current_time := 0; ms_length := 100; playing := true; queue_index := 1 |}.
Proof.
  pose proof (jump_request (world_at every_ms playing_guild) 2
                {[ "index" := JInt 1 ]} 1 0
                eq_refl (or_introl (conj eq_refl eq_refl))) as [_ H].
  destruct (H (track "b" 100)) as [_ Hok]; [vm_compute; discriminate|reflexivity|].
  destruct Hok as (_ & _ & _ & Hms & _);
    [cbn; lia|vm_compute; split; [discriminate|reflexivity]|].
  exact Hms.
Defined.

(** ** Removing *)

Lemma py_index_zero {A} (l : list A) :
  py_index l 0 = if 0 <? Z.of_nat (length l) then Some 0%nat else None.
Proof. reflexivity. Qed.

Lemma py_index_negative {A} (l : list A) i :
  - Z.of_nat (length l) <= i <= -1 ->
  py_index l i = Some (Z.to_nat (Z.of_nat (length l) + i)).
Proof.
  intros H. unfold py_index.
  destruct (0 <=? i) eqn:E0; [apply Z.leb_le in E0; lia|].
  destruct (- Z.of_nat (length l) <=? i) eqn:E1; [reflexivity|].
  apply Z.leb_gt in E1. lia.
Qed.

Lemma py_index_out {A} (l : list A) i :
  i < - Z.of_nat (length l) \/ Z.of_nat (length l) <= i ->
  py_index l i = None.
Proof.
  intros H. unfold py_index.
  destruct (0 <=? i) eqn:E0.
  - apply Z.leb_le in E0.
    destruct (i <? Z.of_nat (length l)) eqn:E1; [|reflexivity].
    apply Z.ltb_lt in E1. lia.
  - apply Z.leb_gt in E0.
    destruct (- Z.of_nat (length l) <=? i) eqn:E1; [|reflexivity].
    apply Z.leb_le in E1. lia.
Qed.

Lemma action_remove_run ws i w :
  action_remove ws (JInt i) w =
  if i =? 0 then (Raised AssertionError, w)
  else match py_index (queue (guild w)) i with
       | Some n => (Done tt, removed w n)
       | None =>
           (Done tt,
            with_outbox w
              (outbox w ++ [(ws, EvError "IndexError"
                                   "The index provided is out of bounds.")]))
       end.
Proof.
  unfold action_remove. unfold bind at 1. cbn [as_int ret].
  unfold bind at 1. unfold assert.
  destruct (i =? 0); cbn [negb]; [reflexivity|].
  cbn [ret]. unfold bind at 1, get_guild.
  destruct (py_index (queue (guild w)) i); reflexivity.
Qed.

(** C10. A negative index that reaches no further back than the front of
    the queue is accepted by remove: the handler returns normally, the item
    at position len(queue)+index is gone and the others keep their order,
    the media state, the queue index included, is left as it was, and the
    only messages sent are the new queue to every member. *)
Theorem remove_negative_index (w : World) (ws : conn) (i : Z) :
  let g := guild w in
  - Z.of_nat (length (queue g)) <= i <= -1 ->
  let n := Z.to_nat (Z.of_nat (length (queue g)) + i) in
  let w' := exec (action_remove ws (JInt i)) w in
  result (action_remove ws (JInt i)) w = Done tt
  /\ queue (guild w') = take n (queue g) ++ drop (S n) (queue g)
  /\ (n < length (queue g))%nat
  /\ S (length (queue (guild w'))) = length (queue g)
  /\ media_state (guild w') = media_state g
  /\ users (guild w') = users g
  /\ sent (action_remove ws (JInt i)) w
     = broadcast (guild w') (EvQueue (queue (guild w')))
  /\ (i = -1 -> S n = length (queue g)).
Proof.
  intros g Hi n w'.
  assert (Hrun : action_remove ws (JInt i) w = (Done tt, removed w n)).
  { rewrite action_remove_run.
    destruct (i =? 0) eqn:E; [apply Z.eqb_eq in E; lia|].
    fold g. rewrite py_index_negative by exact Hi. reflexivity. }
  assert (Hn : (n < length (queue g))%nat) by (unfold n; lia).
  unfold w', exec, result. rewrite Hrun. cbn [fst snd].
  unfold removed. cbn [guild set_queue queue media_state users].
  fold g.
  repeat split.
  - apply delete_take_drop.
  - exact Hn.
  - rewrite length_delete by (apply lookup_lt_is_Some_2; exact Hn). lia.
  - apply sent_appended. unfold exec. rewrite Hrun. reflexivity.
  - intros ->. unfold n. lia.
Qed.

Lemma remove_negative_index_witness :
  queue (guild (exec (action_remove 1 (JInt (-1))) playing_world))
  = [track "a" 200].
Proof.
  destruct (remove_negative_index playing_world 1 (-1)) as (_ & Hq & _).
  - cbn. lia.
  - rewrite Hq. reflexivity.
Defined.

Lemma handle_remove_run ws data i w :
  data !! "action" = Some (JStr "remove") ->
  data !! "index" = Some (JInt i) ->
  handle_message ws (Decoded data) w =
  if i =? 0 then
    (Done tt,
     with_outbox w (outbox w ++ [(ws, EvError "RequestError" "Malformed request.")]))
  else action_remove ws (JInt i) w.
Proof.
  intros Ha Hi. unfold handle_message. rewrite Ha.
  change (dispatch ws (JStr "remove") data)
    with (let* index := subscript data "index" in action_remove ws index).
  unfold catch, subscript. rewrite Hi.
  unfold bind at 1. cbn [ret].
  rewrite action_remove_run.
  destruct (i =? 0); [reflexivity|].
  destruct (py_index (queue (guild w)) i); reflexivity.
Qed.

(** C6, as the code has it. A remove request with index 0 is refused by the
    handler's assertion, whatever the queue: the requester alone is sent a
    RequestError event ("Malformed request."), and nothing else changes.
    A remove request with a non-zero index beyond either end of the queue
    earns the requester an IndexError event, and nothing else changes. *)
Theorem remove_rejections (w : World) (ws : conn) (data : gmap string json) (i : Z) :
  data !! "action" = Some (JStr "remove") ->
  data !! "index" = Some (JInt i) ->
  let w' := exec (handle_message ws (Decoded data)) w in
  let len := Z.of_nat (length (queue (guild w))) in
  (i = 0 ->
     w' = with_outbox w
            (outbox w ++ [(ws, EvError "RequestError" "Malformed request.")]))
  /\ (i <> 0 -> i < - len \/ len <= i ->
     w' = with_outbox w
            (outbox w ++ [(ws, EvError "IndexError"
                                 "The index provided is out of bounds.")])).
Proof.
  intros Ha Hi w' len. unfold w', exec.
  rewrite (handle_remove_run ws data i w Ha Hi). split.
  - intros ->. reflexivity.
  - intros Hnz Hout.
    destruct (i =? 0) eqn:E; [apply Z.eqb_eq in E; contradiction|].
    rewrite action_remove_run, E, py_index_out by exact Hout. reflexivity.
Qed.

Lemma remove_rejections_witness :
  exec (handle_message 1 (request [("action", JStr "remove"); ("index", JInt 0)]))
    playing_world
  = with_outbox playing_world
      [(1%nat, EvError "RequestError" "Malformed request.")].
Proof.
  destruct (remove_rejections playing_world 1
              (dict_of [("action", JStr "remove"); ("index", JInt 0)]) 0
              eq_refl eq_refl) as [H _].
  exact (H eq_refl).
Defined.

(** C6 as stated fails: the event sent for index 0 is a RequestError, and
    no IndexError event is sent. *)
Lemma remove_zero_is_not_IndexError :
  sent (handle_message 1 (request [("action", JStr "remove"); ("index", JInt 0)]))
    playing_world
  = [(1%nat, EvError "RequestError" "Malformed request.")]
  /\ ~ (exists c message,
          In (c, EvError "IndexError" message)
             (sent (handle_message 1
                      (request [("action", JStr "remove"); ("index", JInt 0)]))
                playing_world)).
Proof.
  assert (H : sent (handle_message 1
                      (request [("action", JStr "remove"); ("index", JInt 0)]))
                playing_world
              = [(1%nat, EvError "RequestError" "Malformed request.")])
    by reflexivity.
  split; [exact H|].
  rewrite H. intros (c & m & [Hin|[]]). discriminate Hin.
Qed.

(** ** Pausing *)

(** A pause sets the flag before the clock is reconciled, so the
    reconciliation it triggers adds nothing, whatever the clock reads. *)
Lemma pause_keeps_current_time ws w :
  current_time (media_state (guild (exec (action_play_pause ws (JBool false)) w)))
  = current_time (media_state (guild w)).
Proof.
  unfold exec at 1. rewrite action_play_pause_run. cbn [snd guild].
  etransitivity;
    [apply (update_keeps_time_when_paused _ _ eq_refl)|]; reflexivity.
Qed.

(** A value that is not a bool is refused before anything is touched. *)
Lemma play_pause_rejects_non_bool ws v w :
  (forall b, v <> JBool b) ->
  action_play_pause ws v w = (Raised AssertionError, w).
Proof.
  intros H. destruct v; try reflexivity. exfalso. apply (H b). reflexivity.
Qed.

(** C7 at a failing input. The room has been playing since the last
    reconciliation, 30 seconds ago by the clock; a pause arrives.  The
    handler stores playing = false first and reconciles afterwards, so the
    30 seconds are not added: the current time stays 0, that state is what
    the members are sent, and the next update time is already the new
    reading, so the seconds are gone for good. *)
Theorem pause_drops_elapsed_seconds :
  let pause := handle_message 1 (request [("action", JStr "pause")]) in
  let w' := exec pause playing_world in
  elapsed_seconds (wall (env playing_world) (ticks playing_world))
                  (last_update_time (guild playing_world)) = 30
  /\ media_state (guild playing_world)
     = {| current_time := 0; ms_length := 200; playing := true; queue_index := 0 |}
  /\ was_paused (guild playing_world) = false
  /\ media_state (guild w')
     = {| current_time := 0; ms_length := 200; playing := false; queue_index := 0 |}
  /\ last_update_time (guild w') = 30000000
  /\ sent pause playing_world
     = [(1%nat, EvState {| current_time := 0; ms_length := 200;
                           playing := false; queue_index := 0 |});
        (2%nat, EvState {| current_time := 0; ms_length := 200;
                           playing := false; queue_index := 0 |})].
Proof. vm_compute. repeat split; reflexivity. Qed.

(** ** Adding *)

Lemma update_media_state_time_done w :
  update_media_state_time w = (Done tt, exec update_media_state_time w).
Proof.
  unfold exec. rewrite update_media_state_time_run. reflexivity.
Qed.

Lemma update_queue w :
  queue (guild (exec update_media_state_time w)) = queue (guild w).
Proof.
  unfold exec. rewrite update_media_state_time_run.
  destruct (advancing (guild w)); reflexivity.
Qed.

Lemma update_users w :
  users (guild (exec update_media_state_time w)) = users (guild w).
Proof.
  unfold exec. rewrite update_media_state_time_run.
  destruct (advancing (guild w)); reflexivity.
Qed.

Lemma update_queue_index w :
  queue_index (media_state (guild (exec update_media_state_time w)))
  = queue_index (media_state (guild w)).
Proof.
  unfold exec. rewrite update_media_state_time_run.
  destruct (advancing (guild w)); reflexivity.
Qed.

Lemma update_was_paused w :
  was_paused (guild (exec update_media_state_time w))
  = negb (playing (media_state (guild w))).
Proof.
  unfold exec. rewrite update_media_state_time_run.
  destruct (advancing (guild w)); reflexivity.
Qed.

Lemma update_playing w :
  playing (media_state (guild (exec update_media_state_time w)))
  = playing (media_state (guild w)).
Proof.
  unfold exec. rewrite update_media_state_time_run.
  destruct (advancing (guild w)); reflexivity.
Qed.

Lemma update_ms_length w :
  ms_length (media_state (guild (exec update_media_state_time w)))
  = ms_length (media_state (guild w)).
Proof.
  unfold exec. rewrite update_media_state_time_run.
  destruct (advancing (guild w)); reflexivity.
Qed.

(** What a successful jump leaves, whatever the clock readings. *)
Lemma jumped_guild w time target video :
  let w' := jumped w time target video in
  users (guild w') = clear_finished (users (guild w))
  /\ queue (guild w') = queue (guild w)
  /\ queue_index (media_state (guild w')) = target
  /\ playing (media_state (guild w')) = true
  /\ ms_length (media_state (guild w')) = item_length video
  /\ current_time (media_state (guild w'))
     = (if was_paused (guild w) then time
        else Z.min (time + elapsed_seconds (wall (env w) (S (ticks w)))
                                           (wall (env w) (ticks w)))
                   (item_length video)).
Proof.
  unfold jumped. cbn [guild with_outbox].
  rewrite update_users, update_queue, update_queue_index, update_playing,
    update_ms_length.
  repeat split.
  unfold exec. rewrite update_media_state_time_run. unfold advancing. cbn.
  destruct (was_paused (guild w)); reflexivity.
Qed.

Lemma enqueue_run ws item w :
  enqueue ws item w =
  if play_immediately (exec update_media_state_time w) then
    action_jump (Some ws) {[ "index" := JInt 1 ]} (appended w item)
  else (Done tt, appended w item).
Proof.
  unfold enqueue. unfold bind at 1. rewrite update_media_state_time_done.
  unfold bind at 1, get_guild. unfold play_immediately.
  set (w1 := exec update_media_state_time w).
  unfold bind at 1, modify_guild, bind at 1, get_guild, put_guild.
  unfold bind at 1, queue_event, bind at 1, get_guild, ret.
  unfold bind at 1, notify_all. cbn [guild env ticks outbox].
  unfold appended, broadcast. fold w1.
  cbn [guild set_queue queue users].
  destruct ((queue_index (media_state (guild w1)) =? Z.of_nat (length (queue (guild w1))) - 1)
            && (current_time (media_state (guild w1)) =? ms_length (media_state (guild w1))));
    reflexivity.
Qed.

Lemma action_add_resolved ws data item w :
  resolves (env w) data item ->
  action_add ws data w = enqueue ws item w.
Proof.
  intros [[Hurl (q & song & rest & Hq & Hs & ->)]
         |[[u Hurl] (v & song & Hv & Hs & ->)]];
    unfold action_add, has_key, subscript, assert.
  - rewrite Hurl, Hq. cbn [orb ret]. unfold bind at 1. cbn [ret].
    unfold bind at 1, get_env. unfold bind at 1. cbn [ret].
    rewrite Hs. reflexivity.
  - rewrite Hurl, Hv. rewrite orb_true_r. unfold bind at 1. cbn [ret].
    unfold bind at 1, get_env. unfold bind at 1, catch, bind at 1. cbn [ret].
    rewrite Hs. reflexivity.
Qed.

Lemma appended_queue w item :
  queue (guild (appended w item)) = queue (guild w) ++ [item].
Proof. unfold appended. cbn. rewrite update_queue. reflexivity. Qed.

Lemma appended_media_state w item :
  media_state (guild (appended w item))
  = media_state (guild (exec update_media_state_time w)).
Proof. reflexivity. Qed.

Lemma appended_users w item :
  users (guild (appended w item)) = users (guild w).
Proof. unfold appended. cbn. apply update_users. Qed.

Lemma appended_was_paused w item :
  was_paused (guild (appended w item)) = negb (playing (media_state (guild w))).
Proof. unfold appended. cbn. apply update_was_paused. Qed.

(** The jump that [action_add] makes lands on the item just appended. *)
Lemma jump_to_appended ws w item :
  0 <= item_length item ->
  queue_index (media_state (guild (exec update_media_state_time w)))
  = Z.of_nat (length (queue (guild w))) - 1 ->
  action_jump (Some ws) {[ "index" := JInt 1 ]} (appended w item)
  = (Done tt, jumped (appended w item) 0 (Z.of_nat (length (queue (guild w)))) item).
Proof.
  intros Hlen Hqi.
  rewrite (action_jump_run (Some ws) _ 1 0) by reflexivity.
  cbn zeta. rewrite appended_media_state, Hqi.
  replace (Z.of_nat (length (queue (guild w))) - 1 + 1)
    with (Z.of_nat (length (queue (guild w)))) by lia.
  assert (Hlook : queue (guild (appended w item))
                    !! Z.to_nat (Z.of_nat (length (queue (guild w)))) = Some item).
  { rewrite appended_queue, Nat2Z.id. apply list_lookup_middle. reflexivity. }
  assert (H0 : 0 <= Z.of_nat (length (queue (guild w)))) by lia.
  rewrite (lookup_in_queue _ _ _ H0 Hlook), Hlook.
  destruct ((0 <=? 0) && (0 <=? item_length item)) eqn:E; [reflexivity|].
  apply andb_false_iff in E. destruct E as [E|E]; apply Z.leb_gt in E; lia.
Qed.

(** C2. When the resolver answers, add appends the item, and whether it then
    jumps to it is decided on the state after the reconciliation and the
    queue before the append: the jump (by +1) is made exactly when the
    current time equals the length and the queue index is the last index of
    that queue.  The jump lands on the new item and sets it playing.  A room
    that has never played (empty queue, index -1, times 0) therefore ends at
    index 0, playing, at time 0.  The item's length is not negative. *)
Theorem add_auto_advance (w : World) (ws : conn) (data : gmap string json)
    (item : QueueItem) :
  resolves (env w) data item ->
  0 <= item_length item ->
  let w1 := exec update_media_state_time w in
  let m1 := media_state (guild w1) in
  let last := Z.of_nat (length (queue (guild w))) - 1 in
  let ended := current_time m1 = ms_length m1 /\ queue_index m1 = last in
  let w' := exec (action_add ws data) w in
  result (action_add ws data) w = Done tt
  /\ queue (guild w') = queue (guild w) ++ [item]
  /\ (ended ->
      action_add ws data w
        = action_jump (Some ws) {[ "index" := JInt 1 ]} (appended w item)
      /\ queue_index (media_state (guild w')) = last + 1
      /\ queue (guild w') !! Z.to_nat (last + 1) = Some item
      /\ playing (media_state (guild w')) = true
      /\ ms_length (media_state (guild w')) = item_length item
      /\ users (guild w') = clear_finished (users (guild w)))
  /\ (~ ended ->
      action_add ws data w = (Done tt, appended w item)
      /\ media_state (guild w') = m1
      /\ users (guild w') = users (guild w))
  /\ (queue_index (media_state (guild w'))
        = queue_index (media_state (guild w)) + 1 <-> ended)
  /\ (media_state (guild w)
        = {| current_time := 0; ms_length := 0; playing := false; queue_index := -1 |} ->
      queue (guild w) = [] ->
      media_state (guild w')
        = {| current_time := 0; ms_length := item_length item;
             playing := true; queue_index := 0 |}).
Proof.
  intros Hres Hlen w1 m1 last ended w'.
  pose proof (action_add_resolved ws data item w Hres) as Hadd.
  rewrite enqueue_run in Hadd. fold w1 in Hadd.
  assert (Hdec : play_immediately w1 = true <-> ended).
  { unfold play_immediately, ended, m1, last.
    rewrite andb_true_iff, !Z.eqb_eq. unfold w1 at 2. rewrite update_queue. tauto. }
  assert (Hqi1 : queue_index m1 = queue_index (media_state (guild w)))
    by apply update_queue_index.
  destruct (play_immediately w1) eqn:Eplay.
  - (* the jump is made *)
    assert (Hended : ended) by (apply Hdec; reflexivity).
    destruct Hended as [Hct Hidx].
    pose proof (jump_to_appended ws w item Hlen Hidx) as Hjump.
    fold last in Hjump.
    replace (Z.of_nat (length (queue (guild w)))) with (last + 1) in Hjump
      by (unfold last; lia).
    rewrite Hjump in Hadd.
    assert (Hw' : w' = jumped (appended w item) 0 (last + 1) item)
      by (unfold w', exec; rewrite Hadd; reflexivity).
    destruct (jumped_guild (appended w item) 0 (last + 1) item)
      as (Hu & Hq & Hi & Hp & Hl & Hc).
    rewrite <- Hw' in Hu, Hq, Hi, Hp, Hl, Hc.
    rewrite appended_queue in Hq. rewrite appended_users in Hu.
    rewrite appended_was_paused in Hc.
    split; [unfold result; rewrite Hadd; reflexivity|].
    split; [exact Hq|].
    split.
    { intros _. split; [rewrite Hadd, Hjump; reflexivity|].
      split; [exact Hi|]. split; [|auto].
      rewrite Hq. unfold last.
      replace (Z.to_nat (Z.of_nat (length (queue (guild w))) - 1 + 1))
        with (length (queue (guild w)) + 0)%nat by lia.
      apply list_lookup_middle. lia. }
    split; [intros Hn; exfalso; apply Hn; split; assumption|].
    split.
    { split; [intros _; split; assumption|].
      intros _. rewrite Hi, <- Hqi1, Hidx. reflexivity. }
    intros Hfresh Hempty.
    destruct (media_state (guild w')) as [ct' len' pl' qi'] eqn:Em.
    cbn in Hi, Hp, Hl, Hc. rewrite Hfresh in Hc. cbn in Hc.
    unfold last in Hi. rewrite Hempty in Hi. cbn in Hi.
    subst. reflexivity.
  - (* no jump *)
    assert (Hnot : ~ ended) by (rewrite <- Hdec; discriminate).
    assert (Hw' : w' = appended w item)
      by (unfold w', exec; rewrite Hadd; reflexivity).
    split; [unfold result; rewrite Hadd; reflexivity|].
    split; [rewrite Hw'; apply appended_queue|].
    split; [intros H; contradiction|].
    split.
    { intros _. split; [exact Hadd|].
      rewrite Hw'. split; [reflexivity|apply appended_users]. }
    split.
    { split; [|intros H; contradiction].
      rewrite Hw', appended_media_state. fold w1 m1. rewrite Hqi1. lia. }
    intros Hfresh Hempty. exfalso. apply Hnot.
    unfold ended, m1, w1, last, exec. rewrite update_media_state_time_run.
    unfold advancing. rewrite Hfresh, Hempty. cbn. rewrite Hfresh. cbn.
    split; reflexivity.
Qed.

Lemma add_auto_advance_witness :
  media_state
    (guild (exec (action_add 1 (dict_of [("action", JStr "add"); ("query", JStr "x")]))
              (world_at every_30s (Guild_init "abc" 0))))
  = {| current_time := 0; ms_length := 200; playing := true; queue_index := 0 |}.
Proof.
  pose proof
    (add_auto_advance (world_at every_30s (Guild_init "abc" 0)) 1
       (dict_of [("action", JStr "add"); ("query", JStr "x")])
       (metadata_of_search sample_song)) as H.
  cbn zeta in H.
  destruct H as (_ & _ & _ & _ & _ & Hfresh).
  - left. split; [reflexivity|].
    eexists _, _, _. split; [reflexivity|]. split; reflexivity.
  - cbn. lia.
  - exact (Hfresh eq_refl eq_refl).
Defined.

(** C8 at a failing input. The request carries a video id the resolver
    knows, and nothing else.  The handler's first assertion lets it through,
    but the branch that looks an id up is taken only when the request has a
    "url" key; this one goes down the query branch, where the missing
    "query" is a KeyError: the requester is sent a RequestError event, the
    resolver's answer is never used and the queue stays as it was. *)
Theorem add_by_video_id_is_refused :
  let data := [("action", JStr "add"); ("video_id", JStr "dQw4w9WgXcQ")] in
  let w' := exec (handle_message 1 (request data)) playing_world in
  (exists song, get_song (env playing_world) (JStr "dQw4w9WgXcQ") = Some song)
  /\ has_key (dict_of data) "query" || has_key (dict_of data) "video_id" = true
  /\ sent (handle_message 1 (request data)) playing_world
     = [(1%nat, EvError "RequestError" "Malformed request.")]
  /\ queue (guild w') = queue (guild playing_world).
Proof.
  cbn zeta. split; [eexists; reflexivity|].
  vm_compute. repeat split; reflexivity.
Qed.

(** ** Profiles *)

(** C9 at a failing input. The name in the request is the number 5.  The
    only type test in the handler is on the key, a string literal, so the
    request goes through: member 1 now carries the name 5, and the new
    member list is broadcast, with no error event for anyone. *)
Theorem set_profile_stores_non_string :
  let data := [("action", JStr "set_profile"); ("name", JInt 5)] in
  let w' := exec (handle_message 1 (request data)) playing_world in
  let stored := {| user_id := 1; finished := false; name := Some (JInt 5);
                   identifier := None; art := None |} in
  dict_get 1 (users (guild w')) = Some stored
  /\ sent (handle_message 1 (request data)) playing_world
     = [(1%nat, EvUsers 2 [stored; snd (member 2 false)]);
        (2%nat, EvUsers 2 [stored; snd (member 2 false)])].
Proof. vm_compute. split; reflexivity. Qed.

(** ** The finish barrier *)

Lemma dict_get_set_same {V} k (v : V) d :
  dict_get k (dict_set k v d) = Some v.
Proof.
  induction d as [|[k' v'] d IH]; cbn.
  - rewrite Nat.eqb_refl. reflexivity.
  - destruct (Nat.eqb k k') eqn:E; cbn; rewrite E; [reflexivity|exact IH].
Qed.

Lemma sum_finished_bounds us :
  0 <= sum_finished us <= Z.of_nat (length us).
Proof.
  induction us as [|[k u] us IH]; cbn [sum_finished fold_right length snd].
  - lia.
  - fold (sum_finished us). destruct (finished u); lia.
Qed.

(** The sum of the flags equals the head count exactly when all are set. *)
Lemma sum_finished_all us :
  sum_finished us = Z.of_nat (length us)
  <-> Forall (fun ku => finished (snd ku) = true) us.
Proof.
  induction us as [|[k u] us IH]; cbn [sum_finished fold_right length snd].
  - split; [constructor|reflexivity].
  - fold (sum_finished us). pose proof (sum_finished_bounds us) as Hb.
    rewrite Forall_cons. cbn [snd].
    destruct (finished u); split.
    + intros H. split; [reflexivity|]. apply IH. lia.
    + intros [_ H]. apply IH in H. lia.
    + lia.
    + intros [H _]. discriminate H.
Qed.

Lemma update_user_run ws f u w :
  dict_get ws (users (guild w)) = Some u ->
  update_user ws f w
  = (Done tt,
     {| guild := set_users (dict_set ws (f u) (users (guild w))) (guild w);
        env := env w; ticks := ticks w; outbox := outbox w |}).
Proof.
  intros H. unfold update_user, user_of, bind, get_guild. rewrite H. reflexivity.
Qed.

Lemma action_mark_finished_run ws u w :
  dict_get ws (users (guild w)) = Some u ->
  action_mark_finished ws w =
  if sum_finished (users (guild (marked w ws u)))
     =? Z.of_nat (length (users (guild (marked w ws u)))) then
    if queue_index (media_state (guild w)) =? Z.of_nat (length (queue (guild w))) - 1
    then (Done tt, cleared w ws u)
    else action_jump None {[ "index" := JInt 1 ]} (cleared w ws u)
  else (Done tt, marked w ws u).
Proof.
  intros H. unfold action_mark_finished. unfold bind at 1.
  rewrite (update_user_run ws set_finished u w H). fold (marked w ws u).
  unfold bind at 1, get_guild.
  destruct (sum_finished (users (guild (marked w ws u)))
            =? Z.of_nat (length (users (guild (marked w ws u))))); [|reflexivity].
  unfold bind at 1, modify_guild, bind at 1, get_guild, put_guild.
  unfold bind at 1. cbn [guild marked set_users media_state queue env ticks outbox].
  destruct (queue_index (media_state (guild w)) =? Z.of_nat (length (queue (guild w))) - 1);
    reflexivity.
Qed.

Lemma action_jump_success ws data i time w video :
  data !! "index" = Some (JInt i) ->
  requested_time data = Some time ->
  let target := queue_index (media_state (guild w)) + i in
  0 <= target ->
  queue (guild w) !! Z.to_nat target = Some video ->
  0 <= time <= item_length video ->
  action_jump ws data w = (Done tt, jumped w time target video).
Proof.
  intros Hi Ht target H0 Hvideo Htime.
  rewrite (action_jump_run ws data i time w Hi Ht). cbn zeta. fold target.
  rewrite (lookup_in_queue _ _ _ H0 Hvideo), Hvideo.
  replace ((0 <=? time) && (time <=? item_length video)) with true; [reflexivity|].
  symmetry. apply andb_true_iff. rewrite !Z.leb_le. exact Htime.
Qed.

Lemma jumped_outbox w time target video :
  outbox (jumped w time target video)
  = outbox w ++ broadcast (guild (jumped w time target video))
                  (EvState (media_state (guild (jumped w time target video)))).
Proof.
  unfold jumped. cbn [outbox guild with_outbox]. rewrite update_outbox. reflexivity.
Qed.

Lemma clear_finished_twice us :
  clear_finished (clear_finished us) = clear_finished us.
Proof. unfold clear_finished. rewrite map_map. reflexivity. Qed.

(** C4, with what the advance needs. The caller's flag is set. While some
    member has not finished, nothing else happens. Once all have, every flag
    is cleared; at the last index nothing further happens; elsewhere the
    handler jumps by +1 at time 0, and when the next index holds an item (of
    non-negative length) the room plays that item from 0.  The two clock
    readings the jump takes in a row are less than a second apart. *)
Theorem finish_barrier (w : World) (ws : conn) (u : User) :
  dict_get ws (users (guild w)) = Some u ->
  let g := guild w in
  let voted := dict_set ws (set_finished u) (users g) in
  let unanimous := Forall (fun ku => finished (snd ku) = true) voted in
  let qi := queue_index (media_state g) in
  let last := Z.of_nat (length (queue g)) - 1 in
  let w' := exec (action_mark_finished ws) w in
  dict_get ws voted = Some (set_finished u)
  /\ finished (set_finished u) = true
  /\ (~ unanimous ->
      result (action_mark_finished ws) w = Done tt
      /\ w' = marked w ws u
      /\ users (guild w') = voted
      /\ media_state (guild w') = media_state g)
  /\ (unanimous -> qi = last ->
      result (action_mark_finished ws) w = Done tt
      /\ w' = cleared w ws u
      /\ users (guild w') = clear_finished voted
      /\ media_state (guild w') = media_state g)
  /\ (unanimous -> qi <> last ->
      forall video,
        0 <= qi + 1 -> queue g !! Z.to_nat (qi + 1) = Some video ->
        0 <= item_length video ->
        0 <= wall (env w) (S (ticks w)) - wall (env w) (ticks w) < 1000000 ->
        result (action_mark_finished ws) w = Done tt
        /\ users (guild w') = clear_finished voted
        /\ media_state (guild w')
           = {| current_time := 0; ms_length := item_length video;
                playing := true; queue_index := qi + 1 |}
        /\ queue (guild w') = queue g
        /\ sent (action_mark_finished ws) w
           = broadcast (guild w') (EvState (media_state (guild w')))).
Proof.
  intros Hu g voted unanimous qi last w'.
  pose proof (action_mark_finished_run ws u w Hu) as Hrun.
  cbn [marked guild set_users users] in Hrun. fold g voted in Hrun.
  assert (Hall : (sum_finished voted =? Z.of_nat (length voted)) = true <-> unanimous)
    by (rewrite Z.eqb_eq; apply sum_finished_all).
  split; [apply dict_get_set_same|]. split; [reflexivity|].
  destruct (sum_finished voted =? Z.of_nat (length voted)) eqn:Esum.
  - assert (Hyes : unanimous) by (apply Hall; reflexivity).
    split; [intros Hn; contradiction|].
    fold qi last in Hrun.
    destruct (qi =? last) eqn:Elast.
    + apply Z.eqb_eq in Elast.
      split; [|intros _ Hne; contradiction].
      intros _ _. unfold w', exec, result. rewrite Hrun. cbn.
      repeat split.
    + apply Z.eqb_neq in Elast.
      split; [intros _ Heq; contradiction|].
      intros _ _ video H0 Hvideo Hlen Hgap.
      assert (Hjump : action_jump None {[ "index" := JInt 1 ]} (cleared w ws u)
                      = (Done tt, jumped (cleared w ws u) 0 (qi + 1) video)).
      { apply (action_jump_success None _ 1 0); try reflexivity;
          [exact H0|exact Hvideo|lia]. }
      rewrite Hjump in Hrun.
      assert (Hw' : w' = jumped (cleared w ws u) 0 (qi + 1) video)
        by (unfold w', exec; rewrite Hrun; reflexivity).
      destruct (jumped_guild (cleared w ws u) 0 (qi + 1) video)
        as (Hus & Hq & _).
      split; [unfold result; rewrite Hrun; reflexivity|].
      split; [rewrite Hw', Hus; apply clear_finished_twice|].
      split.
      { rewrite Hw'. unfold jumped. cbn [guild with_outbox].
        apply jump_assigned_settles; [lia|exact Hgap]. }
      split; [rewrite Hw', Hq; reflexivity|].
      apply sent_appended. fold w'. rewrite Hw'.
      apply (jumped_outbox (cleared w ws u)).
  - assert (Hno : ~ unanimous) by (rewrite <- Hall; discriminate).
    split; [|split; intros Hyes; contradiction].
    intros _. unfold w', exec, result. rewrite Hrun. repeat split.
Qed.

Lemma finish_barrier_witness :
  media_state
    (guild (exec (action_mark_finished 1)
              (world_at every_ms
                 (set_users [member 1 false; member 2 true] playing_guild))))
  = {| current_time := 0; ms_length := 100; playing := true; queue_index := 1 |}.
Proof.
  pose proof
    (finish_barrier
       (world_at every_ms (set_users [member 1 false; member 2 true] playing_guild))
       1 (snd (member 1 false)) eq_refl) as H.
  cbn zeta in H. destruct H as (_ & _ & _ & _ & H).
  destruct (H ltac:(repeat constructor) ltac:(cbn; lia) (track "b" 100))
    as (_ & _ & Hms & _).
  - cbn. lia.
  - reflexivity.
  - cbn. lia.
  - vm_compute. split; [discriminate|reflexivity].
  - exact Hms.
Defined.

(** C4 as stated fails. In the session above the only member reports the
    end of the item: all members have finished, and the queue index, 1, is
    not the last index, 0, of the one-item queue.  The internal jump finds
    its target out of bounds and, having no requester to tell, raises: the
    caller is sent a generic Error event, the media state stays as it was,
    and the queue index has not moved to 2. *)
Lemma finish_after_remove_does_not_advance :
  let finish := say 1 [("action", JStr "finished")] in
  let w := second_removed in
  let w' := exec finish w in
  map fst (users (guild w)) = [1%nat]
  /\ queue_index (media_state (guild w)) = 1
  /\ Z.of_nat (length (queue (guild w))) - 1 = 0
  /\ result (action_mark_finished 1) w = Raised AttributeError
  /\ media_state (guild w') = media_state (guild w)
  /\ queue_index (media_state (guild w'))
     <> queue_index (media_state (guild w)) + 1
  /\ Forall (fun ku => finished (snd ku) = false) (users (guild w'))
  /\ sent finish w = [(1%nat, EvError "Error" "An unexpected error occurred.")].
Proof.
  vm_compute. repeat split; try reflexivity; try discriminate.
  repeat constructor.
Qed.

(** ** The room invariant *)

(** [Good] looks at the times and the index of the media state, the queue,
    the update time and the clock, and at nothing else. *)
Lemma Good_playback w w' :
  current_time (media_state (guild w')) = current_time (media_state (guild w)) ->
  ms_length (media_state (guild w')) = ms_length (media_state (guild w)) ->
  queue_index (media_state (guild w')) = queue_index (media_state (guild w)) ->
  queue (guild w') = queue (guild w) ->
  last_update_time (guild w') = last_update_time (guild w) ->
  env w' = env w ->
  ticks w' = ticks w ->
  Good w -> Good w'.
Proof.
  intros Hc Hm Hi Hq Hl He Ht.
  unfold Good, room_invariant, time_bounds, index_valid, length_matches, clock_ok.
  rewrite Hc, Hm, Hi, Hq, Hl, He, Ht. tauto.
Qed.

Lemma timing_ok_playback w w' :
  current_time (media_state (guild w')) = current_time (media_state (guild w)) ->
  ms_length (media_state (guild w')) = ms_length (media_state (guild w)) ->
  queue_index (media_state (guild w')) = queue_index (media_state (guild w)) ->
  queue (guild w') = queue (guild w) ->
  last_update_time (guild w') = last_update_time (guild w) ->
  env w' = env w ->
  ticks w' = ticks w ->
  timing_ok w -> timing_ok w'.
Proof.
  intros Hc Hm _ _ Hl He Ht.
  unfold timing_ok, time_bounds, clock_ok.
  rewrite Hc, Hm, Hl, He, Ht. tauto.
Qed.

Lemma elapsed_seconds_nonneg later earlier :
  earlier <= later -> 0 <= elapsed_seconds later earlier.
Proof. intros H. unfold elapsed_seconds. apply Z.quot_pos; lia. Qed.

Lemma timing_ok_update w :
  timing_ok w -> timing_ok (exec update_media_state_time w).
Proof.
  intros [Ht [Hmono Hlast]].
  unfold exec. rewrite update_media_state_time_run.
  unfold timing_ok, time_bounds, clock_ok in *.
  destruct (advancing (guild w)); cbn.
  - pose proof (elapsed_seconds_nonneg _ _ Hlast) as He.
    pose proof (Hmono (S (ticks w)) (S (S (ticks w))) ltac:(lia)).
    repeat split; try assumption; try lia.
  - pose proof (Hmono (ticks w) (S (ticks w)) ltac:(lia)).
    repeat split; try assumption; try lia.
Qed.

Lemma Good_update w : Good w -> Good (exec update_media_state_time w).
Proof.
  intros [(Ht & Hi & Hl) Hc].
  destruct (timing_ok_update w (conj Ht Hc)) as [Ht' Hc'].
  split; [|exact Hc']. split; [exact Ht'|].
  unfold index_valid, length_matches in *.
  rewrite update_queue_index, update_queue, update_ms_length. tauto.
Qed.

Lemma timing_ok_jump w time target video :
  0 <= target ->
  queue (guild w) !! Z.to_nat target = Some video ->
  0 <= time <= item_length video ->
  timing_ok w -> timing_ok (jump_assigned w time target video).
Proof.
  intros _ _ Htime [_ [Hmono Hlast]].
  unfold timing_ok, time_bounds, clock_ok. cbn.
  repeat split; try lia; try assumption. apply Hmono. lia.
Qed.

Lemma Good_jump w time target video :
  0 <= target ->
  queue (guild w) !! Z.to_nat target = Some video ->
  0 <= time <= item_length video ->
  Good w -> Good (jump_assigned w time target video).
Proof.
  intros H0 Hvideo Htime [_ [Hmono Hlast]].
  unfold Good, room_invariant, time_bounds, index_valid, length_matches, clock_ok.
  cbn. repeat split; try lia; try assumption.
  - right. split; [exact H0|].
    apply lookup_lt_Some in Hvideo. lia.
  - intros _. exists video. split; [exact Hvideo|reflexivity].
  - apply Hmono. lia.
Qed.

Lemma timing_ok_append item w :
  timing_ok w ->
  timing_ok (exec (modify_guild (fun g => set_queue (queue g ++ [item]) g)) w).
Proof. intros H. exact H. Qed.

(** An append keeps every index valid and every item in its place. *)
Lemma Good_append item w :
  Good w ->
  Good (exec (modify_guild (fun g => set_queue (queue g ++ [item]) g)) w).
Proof.
  intros [(Ht & Hi & Hl) Hc].
  unfold Good, room_invariant, time_bounds, index_valid, length_matches, clock_ok in *.
  cbn. rewrite length_app. cbn [length].
  repeat split; try apply Ht; try apply Hc.
  - destruct Hi as [Hi|Hi]; [left; exact Hi|right; lia].
  - intros H0. destruct (Hl H0) as (video & Hv & Hlen).
    exists video. split; [|exact Hlen].
    rewrite lookup_app_l; [exact Hv|]. apply lookup_lt_Some in Hv. exact Hv.
Qed.

(** A jump either goes through or leaves the room and the clock alone. *)
Lemma action_jump_outcome ws data w :
  (guild (exec (action_jump ws data) w) = guild w
   /\ env (exec (action_jump ws data) w) = env w
   /\ ticks (exec (action_jump ws data) w) = ticks w)
  \/ exists time target video,
       0 <= target
       /\ queue (guild w) !! Z.to_nat target = Some video
       /\ 0 <= time <= item_length video
       /\ exec (action_jump ws data) w = jumped w time target video.
Proof.
  destruct (data !! "index") as [v|] eqn:Hi.
  - destruct v as [|b|i|f|s|l|kvs];
      try (left; unfold exec, action_jump, subscript, bind; rewrite Hi;
           repeat split; reflexivity).
    destruct (requested_time data) as [time|] eqn:Ht.
    + unfold exec. rewrite (action_jump_run ws data i time w Hi Ht). cbn zeta.
      set (target := queue_index (media_state (guild w)) + i).
      destruct (in_queue (guild w) target) eqn:Ein.
      * apply in_queue_spec in Ein.
        destruct (queue (guild w) !! Z.to_nat target) as [video|] eqn:Hvideo;
          [|left; repeat split; reflexivity].
        destruct ((0 <=? time) && (time <=? item_length video)) eqn:Etime.
        -- right. exists time, target, video.
           apply andb_true_iff in Etime. rewrite !Z.leb_le in Etime.
           repeat split; try lia; try assumption.
        -- left. destruct ws; repeat split; reflexivity.
      * left. destruct ws; repeat split; reflexivity.
    + left. unfold exec, action_jump, subscript, has_key, bind.
      rewrite Hi. cbn [as_int ret].
      unfold requested_time in Ht.
      destruct (data !! "time") as [[]|]; try discriminate;
        repeat split; reflexivity.
  - left. unfold exec, action_jump, subscript, bind. rewrite Hi.
    repeat split; reflexivity.
Qed.

(** What holds of the playback after every handler, once it holds after the
    steps that touch the playback. *)
Section Stable.
Variable P : World -> Prop.
Hypothesis P_playback :
  forall w w',
    current_time (media_state (guild w')) = current_time (media_state (guild w)) ->
    ms_length (media_state (guild w')) = ms_length (media_state (guild w)) ->
    queue_index (media_state (guild w')) = queue_index (media_state (guild w)) ->
    queue (guild w') = queue (guild w) ->
    last_update_time (guild w') = last_update_time (guild w) ->
    env w' = env w ->
    ticks w' = ticks w ->
    P w -> P w'.
Hypothesis P_update : forall w, P w -> P (exec update_media_state_time w).
Hypothesis P_jump :
  forall w time target video,
    0 <= target ->
    queue (guild w) !! Z.to_nat target = Some video ->
    0 <= time <= item_length video ->
    P w -> P (jump_assigned w time target video).
Hypothesis P_append :
  forall item w,
    P w -> P (exec (modify_guild (fun g => set_queue (queue g ++ [item]) g)) w).

Lemma stable_ret {A} (a : A) : stable P (ret a).
Proof. intros w H. exact H. Qed.

Lemma stable_raise {A} e : stable P (@raise A e).
Proof. intros w H. exact H. Qed.

Lemma stable_bind {A B} (c : M A) (k : A -> M B) :
  stable P c -> (forall a, stable P (k a)) -> stable P (bind c k).
Proof.
  intros Hc Hk w H. specialize (Hc w H). unfold exec, bind in *.
  destruct (c w) as [[a|e] w1]; cbn in *; [apply Hk; exact Hc|exact Hc].
Qed.

Lemma stable_catch {A} (c : M A) (h : exn -> M A) :
  stable P c -> (forall e, stable P (h e)) -> stable P (catch c h).
Proof.
  intros Hc Hh w H. specialize (Hc w H). unfold exec, catch in *.
  destruct (c w) as [[a|e] w1]; cbn in *; [exact Hc|apply Hh; exact Hc].
Qed.

Lemma stable_send ws e : stable P (send ws e).
Proof.
  intros w H. destruct ws; [|exact H].
  revert H. apply P_playback; reflexivity.
Qed.

Lemma stable_notify_all e : stable P (notify_all e).
Proof. intros w. apply P_playback; reflexivity. Qed.

Lemma stable_get_guild : stable P get_guild.
Proof. intros w H. exact H. Qed.

Lemma stable_get_env : stable P get_env.
Proof. intros w H. exact H. Qed.

Lemma stable_assert b : stable P (assert b).
Proof. destruct b; intros w H; exact H. Qed.

Lemma stable_subscript data key : stable P (subscript data key).
Proof. unfold subscript. destruct (data !! key); intros w H; exact H. Qed.

Lemma stable_as_int v : stable P (as_int v).
Proof. destruct v; intros w H; exact H. Qed.

Lemma stable_users_event : stable P users_event.
Proof. intros w H. exact H. Qed.

Lemma stable_queue_event : stable P queue_event.
Proof. intros w H. exact H. Qed.

(** Assignments to the membership leave the playback alone. *)
Lemma stable_modify_users (f : Guild -> list (conn * User)) :
  stable P (modify_guild (fun g => set_users (f g) g)).
Proof. intros w. apply P_playback; reflexivity. Qed.

Lemma stable_update_user ws f : stable P (update_user ws f).
Proof.
  unfold update_user, user_of. apply stable_bind.
  - apply stable_bind; [apply stable_get_guild|].
    intros g. destruct (dict_get ws (users g));
      [apply stable_ret|apply stable_raise].
  - intros u. apply (stable_modify_users (fun g => dict_set ws (f u) (users g))).
Qed.

Lemma stable_media_state_event : stable P media_state_event.
Proof.
  unfold media_state_event. apply stable_bind.
  - exact P_update.
  - intros _. apply stable_bind; [apply stable_get_guild|].
    intros g. apply stable_ret.
Qed.

Lemma stable_action_play_pause ws v : stable P (action_play_pause ws v).
Proof.
  destruct v; try apply stable_raise.
  unfold action_play_pause. apply stable_bind.
  - intros w. apply P_playback; reflexivity.
  - intros _. apply stable_bind; [apply stable_media_state_event|].
    intros e. apply stable_notify_all.
Qed.

Lemma stable_jumped w time target video :
  0 <= target ->
  queue (guild w) !! Z.to_nat target = Some video ->
  0 <= time <= item_length video ->
  P w -> P (jumped w time target video).
Proof.
  intros H0 Hvideo Htime H. unfold jumped.
  apply (P_playback (exec update_media_state_time
                       (jump_assigned w time target video))); try reflexivity.
  apply P_update, P_jump; assumption.
Qed.

Lemma stable_action_jump ws data : stable P (action_jump ws data).
Proof.
  intros w H.
  destruct (action_jump_outcome ws data w)
    as [(Hg & He & Ht)|(time & target & video & H0 & Hv & Htime & ->)].
  - revert H. apply P_playback; try assumption; rewrite Hg; reflexivity.
  - apply stable_jumped; assumption.
Qed.

Lemma stable_enqueue ws item : stable P (enqueue ws item).
Proof.
  unfold enqueue.
  apply stable_bind; [exact P_update|]. intros _.
  apply stable_bind; [apply stable_get_guild|]. intros g.
  apply stable_bind; [exact (P_append item)|]. intros _.
  apply stable_bind; [apply stable_queue_event|]. intros e.
  apply stable_bind; [apply stable_notify_all|]. intros _.
  match goal with |- stable P (if ?b then _ else _) => destruct b end;
    [apply stable_action_jump|apply stable_ret].
Qed.

Lemma stable_action_add ws data : stable P (action_add ws data).
Proof.
  unfold action_add.
  apply stable_bind; [apply stable_assert|]. intros _.
  apply stable_bind; [apply stable_get_env|]. intros e.
  destruct (has_key data "url").
  - apply stable_bind.
    + apply stable_catch.
      * apply stable_bind; [apply stable_subscript|]. intros v.
        destruct (get_song e v); [apply stable_ret|apply stable_raise].
      * intros []; try apply stable_raise. apply stable_ret.
    + intros [song|]; [apply stable_enqueue|apply stable_send].
  - apply stable_bind; [apply stable_subscript|]. intros q.
    destruct (search e q); [apply stable_raise|apply stable_enqueue].
Qed.

Lemma stable_for_keys keys body :
  (forall k, stable P (body k)) -> stable P (for_keys keys body).
Proof.
  intros Hb. induction keys as [|k keys IH]; cbn [for_keys].
  - apply stable_ret.
  - apply stable_bind; [apply Hb|]. intros _. exact IH.
Qed.

Lemma stable_action_set_profile ws data : stable P (action_set_profile ws data).
Proof.
  unfold action_set_profile. apply stable_bind.
  - apply stable_for_keys. intros k.
    apply stable_bind; [apply stable_assert|]. intros _.
    apply stable_update_user.
  - intros _. apply stable_bind; [apply stable_users_event|].
    intros e. apply stable_notify_all.
Qed.

Lemma stable_action_mark_finished ws : stable P (action_mark_finished ws).
Proof.
  unfold action_mark_finished.
  apply stable_bind; [apply stable_update_user|]. intros _.
  apply stable_bind; [apply stable_get_guild|]. intros g.
  match goal with |- stable P (if ?b then _ else _) => destruct b end;
    [|apply stable_ret].
  apply stable_bind;
    [apply (stable_modify_users (fun g => clear_finished (users g)))|].
  intros _. apply stable_bind; [apply stable_get_guild|]. intros g'.
  match goal with |- stable P (if ?b then _ else _) => destruct b end;
    [apply stable_action_jump|apply stable_ret].
Qed.

Lemma stable_register ws : stable P (register ws).
Proof.
  unfold register.
  apply stable_bind;
    [apply (stable_modify_users (fun g => dict_set ws _ (users g)))|].
  intros _. apply stable_bind; [apply stable_users_event|]. intros e.
  apply stable_bind; [apply stable_notify_all|]. intros _.
  apply stable_bind; [apply stable_queue_event|]. intros e'.
  apply stable_bind; [apply stable_send|]. intros _.
  apply stable_bind; [apply stable_media_state_event|]. intros e''.
  apply stable_send.
Qed.

Lemma stable_unregister ws : stable P (unregister ws).
Proof.
  unfold unregister.
  apply stable_bind;
    [apply (stable_modify_users (fun g => dict_pop ws (users g)))|].
  intros _. apply stable_bind; [apply stable_users_event|]. intros e.
  apply stable_notify_all.
Qed.

Lemma stable_dispatch ws action data :
  is_str action "remove" = false -> stable P (dispatch ws action data).
Proof.
  intros E. unfold dispatch. rewrite E.
  destruct (is_str action "set_profile"); [apply stable_action_set_profile|].
  destruct (is_str action "play" || is_str action "pause");
    [apply stable_action_play_pause|].
  destruct (is_str action "add"); [apply stable_action_add|].
  destruct (is_str action "jump"); [apply stable_action_jump|].
  destruct (is_str action "finished"); [apply stable_action_mark_finished|].
  apply stable_send.
Qed.

Lemma is_str_true v literal : is_str v literal = true <-> v = JStr literal.
Proof.
  destruct v; cbn; try (split; [discriminate|intros H; discriminate H]).
  rewrite String.eqb_eq. split; [intros ->; reflexivity|intros H; injection H; auto].
Qed.

Lemma stable_handle_message ws msg :
  action_of msg <> Some (JStr "remove") -> stable P (handle_message ws msg).
Proof.
  intros Hact. destruct msg as [|data| |e]; cbn [handle_message].
  - apply stable_send.
  - cbn [action_of] in Hact.
    destruct (data !! "action") as [action|]; [|apply stable_send].
    apply stable_catch.
    + apply stable_dispatch.
      destruct (is_str action "remove") eqn:E; [|reflexivity].
      apply is_str_true in E. congruence.
    + intros []; apply stable_send.
  - apply stable_raise.
  - destruct e; try apply stable_raise. apply stable_send.
Qed.

End Stable.

Lemma Good_handle_message ws msg :
  action_of msg <> Some (JStr "remove") -> stable Good (handle_message ws msg).
Proof.
  apply stable_handle_message;
    [exact Good_playback|exact Good_update|exact Good_jump|exact Good_append].
Qed.

Lemma timing_ok_handle_message ws msg :
  action_of msg <> Some (JStr "remove") -> stable timing_ok (handle_message ws msg).
Proof.
  apply stable_handle_message;
    [exact timing_ok_playback|exact timing_ok_update|exact timing_ok_jump
    |exact timing_ok_append].
Qed.

Lemma action_remove_same_playback ws v w :
  same_playback w (exec (action_remove ws v) w).
Proof.
  destruct v as [|b|i|f|s|l|kvs]; try (repeat split; reflexivity).
  unfold exec. rewrite action_remove_run.
  destruct (i =? 0); [repeat split; reflexivity|].
  destruct (py_index (queue (guild w)) i); repeat split; reflexivity.
Qed.

Lemma handle_remove_same_playback ws data w :
  data !! "action" = Some (JStr "remove") ->
  same_playback w (exec (handle_message ws (Decoded data)) w).
Proof.
  intros Ha. unfold handle_message. rewrite Ha.
  change (dispatch ws (JStr "remove") data)
    with (let* index := subscript data "index" in action_remove ws index).
  unfold exec, catch, bind, subscript.
  destruct (data !! "index") as [v|]; [|repeat split; reflexivity].
  cbn [ret]. pose proof (action_remove_same_playback ws v w) as H.
  unfold exec in H. destruct (action_remove ws v w) as [[[]|e] w1]; cbn in *;
    [exact H|].
  destruct e; exact H.
Qed.

(** The queue a remove request leaves. *)
Lemma handle_remove_queue ws data w :
  data !! "action" = Some (JStr "remove") ->
  queue (guild (exec (handle_message ws (Decoded data)) w))
  = match removal_position (guild w) data with
    | Some n => delete n (queue (guild w))
    | None => queue (guild w)
    end.
Proof.
  intros Ha. unfold removal_position.
  destruct (data !! "index") as [v|] eqn:Hi.
  - destruct v as [|b|i|f|s|l|kvs];
      try (unfold exec, handle_message; rewrite Ha;
           change (dispatch ws (JStr "remove") data)
             with (let* index := subscript data "index" in action_remove ws index);
           unfold catch, bind, subscript; rewrite Hi; reflexivity).
    unfold exec. rewrite (handle_remove_run ws data i w Ha Hi).
    destruct (i =? 0) eqn:E; [reflexivity|]. rewrite action_remove_run, E.
    destruct (py_index (queue (guild w)) i); reflexivity.
  - unfold exec, handle_message. rewrite Ha.
    change (dispatch ws (JStr "remove") data)
      with (let* index := subscript data "index" in action_remove ws index).
    unfold catch, bind, subscript. rewrite Hi. reflexivity.
Qed.

Lemma py_index_in_range {A} (l : list A) i n :
  py_index l i = Some n -> (n < length l)%nat.
Proof.
  unfold py_index. destruct (0 <=? i) eqn:E0.
  - destruct (i <? Z.of_nat (length l)) eqn:E1; [|discriminate].
    intros [= <-]. apply Z.leb_le in E0. apply Z.ltb_lt in E1. lia.
  - destruct (- Z.of_nat (length l) <=? i) eqn:E1; [|discriminate].
    intros [= <-]. apply Z.leb_gt in E0. apply Z.leb_le in E1. lia.
Qed.

Lemma removal_position_in_range g data n :
  removal_position g data = Some n -> (n < length (queue g))%nat.
Proof.
  unfold removal_position. destruct (data !! "index") as [[]|]; try discriminate.
  destruct (z =? 0); [discriminate|]. apply py_index_in_range.
Qed.

(** Deleting an item beyond the queue index keeps the index valid and the
    item it points at in place. *)
Lemma delete_beyond_index g n :
  (n < length (queue g))%nat ->
  queue_index (media_state g) < Z.of_nat n ->
  index_valid g /\ length_matches g ->
  index_valid (set_queue (delete n (queue g)) g)
  /\ length_matches (set_queue (delete n (queue g)) g).
Proof.
  intros Hn Hbeyond [Hi Hl]. unfold index_valid, length_matches in *. cbn.
  assert (Hlen : S (length (delete n (queue g))) = length (queue g)).
  { rewrite length_delete by (apply lookup_lt_is_Some_2; exact Hn). lia. }
  split.
  - destruct Hi as [Hi|Hi]; [left; exact Hi|right; lia].
  - intros H0. destruct (Hl H0) as (video & Hv & Hm).
    exists video. split; [|exact Hm].
    rewrite list_lookup_delete_lt by lia. exact Hv.
Qed.

(** C1, as the code has it. A new room satisfies the invariant. With a
    clock that does not run backwards: the bounds 0 <= current_time <= length
    are kept by joining, leaving and every turn of the loop, from any state
    that has them; the whole invariant (those bounds, the queue index -1 or
    a valid index, the length that of the indexed item) is kept by joining,
    leaving and every message other than a remove request.  A remove request
    never touches the media state; it deletes at most one item, and when
    that item lies beyond the queue index, or nothing is deleted, the whole
    invariant is kept as well. *)
Theorem invariant_preserved (w : World) (ws : conn) :
  clock_ok w ->
  (forall id t, room_invariant (Guild_init id t))
  /\ (time_bounds (guild w) ->
      timing_ok (exec (register ws) w)
      /\ timing_ok (exec (unregister ws) w)
      /\ forall msg, timing_ok (exec (handle_message ws msg) w))
  /\ (room_invariant (guild w) ->
      Good (exec (register ws) w)
      /\ Good (exec (unregister ws) w)
      /\ forall msg,
           action_of msg <> Some (JStr "remove") ->
           Good (exec (handle_message ws msg) w))
  /\ (forall data,
        data !! "action" = Some (JStr "remove") ->
        let w' := exec (handle_message ws (Decoded data)) w in
        media_state (guild w') = media_state (guild w)
        /\ queue (guild w')
           = match removal_position (guild w) data with
             | Some n => delete n (queue (guild w))
             | None => queue (guild w)
             end
        /\ (room_invariant (guild w) ->
            (forall n, removal_position (guild w) data = Some n ->
                       queue_index (media_state (guild w)) < Z.of_nat n) ->
            Good w')).
Proof.
  intros Hclock.
  split.
  { intros id t. split; [|split].
    - unfold time_bounds. cbn. lia.
    - left. reflexivity.
    - intros H0. cbn in H0. lia. }
  split; [|split].
  - intros Hb. assert (Hok : timing_ok w) by (split; assumption).
    split; [|split].
    + apply (stable_register timing_ok timing_ok_playback timing_ok_update).
      exact Hok.
    + apply (stable_unregister timing_ok timing_ok_playback). exact Hok.
    + intros msg.
      assert (Hcase : action_of msg = Some (JStr "remove")
                      \/ action_of msg <> Some (JStr "remove")).
      { destruct (action_of msg) as [action|]; [|right; discriminate].
        destruct (is_str action "remove") eqn:E.
        - left. apply is_str_true in E. rewrite E. reflexivity.
        - right. intros Heq. injection Heq as ->. discriminate E. }
      destruct Hcase as [Hrem|Hact].
      * destruct msg as [|data| |e]; try discriminate Hrem. cbn in Hrem.
        destruct (handle_remove_same_playback ws data w Hrem) as (Hm & Hl & He & Ht).
        destruct Hok as [Hb' Hc].
        unfold timing_ok, time_bounds, clock_ok in *. rewrite Hm, Hl, He, Ht. tauto.
      * apply timing_ok_handle_message; assumption.
  - intros Hinv. assert (Hok : Good w) by (split; assumption).
    split; [|split].
    + apply (stable_register Good Good_playback Good_update). exact Hok.
    + apply (stable_unregister Good Good_playback). exact Hok.
    + intros msg Hact. apply Good_handle_message; assumption.
  - intros data Ha w'.
    destruct (handle_remove_same_playback ws data w Ha) as (Hm & Hl & He & Ht).
    pose proof (handle_remove_queue ws data w Ha) as Hq. fold w' in Hm, Hl, He, Ht, Hq.
    split; [exact Hm|]. split; [exact Hq|].
    intros (Hb & Hi & Hlm) Hbeyond.
    split.
    + unfold room_invariant, time_bounds, index_valid, length_matches.
      rewrite Hm, Hq.
      destruct (removal_position (guild w) data) as [n|] eqn:Hpos.
      * destruct (delete_beyond_index (guild w) n) as [Hi' Hl'];
          [eapply removal_position_in_range; exact Hpos
          |apply Hbeyond; reflexivity|split; assumption|].
        repeat split; [apply Hb|apply Hb|exact Hi'|exact Hl'].
      * repeat split; [apply Hb|apply Hb|exact Hi|exact Hlm].
    + unfold clock_ok in *. rewrite Hl, He, Ht. exact Hclock.
Qed.

Lemma every_ms_monotone i j : (i <= j)%nat -> every_ms i <= every_ms j.
Proof. unfold every_ms. lia. Qed.

Lemma two_songs_Good : Good two_songs.
Proof.
  split; [split; [|split]|split].
  - unfold time_bounds. vm_compute. split; discriminate.
  - right. vm_compute. split; [discriminate|reflexivity].
  - intros _. exists (metadata_of_search sample_song). split; reflexivity.
  - intros i j Hij. change (wall (env two_songs)) with every_ms.
    apply every_ms_monotone. exact Hij.
  - vm_compute. discriminate.
Qed.

Lemma second_removed_clock_ok : clock_ok second_removed.
Proof.
  split.
  - intros i j Hij. change (wall (env second_removed)) with every_ms.
    apply every_ms_monotone. exact Hij.
  - vm_compute. discriminate.
Qed.

Lemma invariant_preserved_witness :
  Good (exec (say 1 [("action", JStr "pause")]) two_songs)
  /\ timing_ok (exec (say 1 [("action", JStr "finished")]) second_removed).
Proof.
  split.
  - destruct (invariant_preserved two_songs 1 (proj2 two_songs_Good))
      as (_ & _ & H & _).
    destruct (H (proj1 two_songs_Good)) as (_ & _ & Hmsg).
    apply Hmsg. cbn. discriminate.
  - destruct (invariant_preserved second_removed 1 second_removed_clock_ok)
      as (_ & H & _).
    apply H. unfold time_bounds. vm_compute. split; discriminate.
Defined.

(** C1 as stated fails. After the session above the invariant holds; the
    remove request for index 1 is carried out, and the queue index, still 1,
    is then neither -1 nor an index of the one-item queue. *)
Lemma remove_breaks_invariant :
  room_invariant (guild two_songs)
  /\ second_removed
     = exec (handle_message 1 (request [("action", JStr "remove"); ("index", JInt 1)]))
         two_songs
  /\ length (queue (guild second_removed)) = 1%nat
  /\ queue_index (media_state (guild second_removed)) = 1
  /\ ~ index_valid (guild second_removed)
  /\ ~ room_invariant (guild second_removed).
Proof.
  assert (Hbad : ~ index_valid (guild second_removed)).
  { intros [H|H]; vm_compute in H; [discriminate H|].
    destruct H as [_ H]. discriminate H. }
  split; [apply two_songs_Good|].
  split; [reflexivity|].
  split; [reflexivity|].
  split; [reflexivity|].
  split; [exact Hbad|].
  intros (_ & H & _). exact (Hbad H).
Qed.

(** * More properties *)

(** ** Relations kept by the handlers *)

Section Keeps.
Variable R : World -> World -> Prop.
Hypothesis R_refl : forall w, R w w.
Hypothesis R_trans : forall w1 w2 w3, R w1 w2 -> R w2 w3 -> R w1 w3.

Lemma keeps_ret {A} (a : A) : keeps R (ret a).
Proof. intros w. apply R_refl. Qed.

Lemma keeps_raise {A} e : keeps R (@raise A e).
Proof. intros w. apply R_refl. Qed.

Lemma keeps_bind {A B} (c : M A) (k : A -> M B) :
  keeps R c -> (forall a, keeps R (k a)) -> keeps R (bind c k).
Proof.
  intros Hc Hk w. specialize (Hc w). unfold exec, bind in *.
  destruct (c w) as [[a|e] w1]; cbn in *; [|exact Hc].
  eapply R_trans; [exact Hc|apply Hk].
Qed.

(** The continuation may rely on what the first part returns. *)
Lemma keeps_bind_result {A B} (Q : A -> Prop) (c : M A) (k : A -> M B) :
  keeps R c ->
  (forall w a, result c w = Done a -> Q a) ->
  (forall a, Q a -> keeps R (k a)) ->
  keeps R (bind c k).
Proof.
  intros Hc Hres Hk w. specialize (Hc w). specialize (Hres w).
  unfold exec, result, bind in *.
  destruct (c w) as [[a|e] w1]; cbn in *; [|exact Hc].
  eapply R_trans; [exact Hc|apply Hk, Hres; reflexivity].
Qed.

Lemma keeps_catch {A} (c : M A) (h : exn -> M A) :
  keeps R c -> (forall e, keeps R (h e)) -> keeps R (catch c h).
Proof.
  intros Hc Hh w. specialize (Hc w). unfold exec, catch in *.
  destruct (c w) as [[a|e] w1]; cbn in *; [exact Hc|].
  eapply R_trans; [exact Hc|apply Hh].
Qed.

Lemma keeps_get_guild : keeps R get_guild.
Proof. intros w. apply R_refl. Qed.

Lemma keeps_get_env : keeps R get_env.
Proof. intros w. apply R_refl. Qed.

Lemma keeps_assert b : keeps R (assert b).
Proof. destruct b; intros w; apply R_refl. Qed.

Lemma keeps_subscript data key : keeps R (subscript data key).
Proof. unfold subscript. destruct (data !! key); intros w; apply R_refl. Qed.

Lemma keeps_as_int v : keeps R (as_int v).
Proof. destruct v; intros w; apply R_refl. Qed.

Lemma keeps_users_event : keeps R users_event.
Proof. intros w. apply R_refl. Qed.

Lemma keeps_queue_event : keeps R queue_event.
Proof. intros w. apply R_refl. Qed.

Lemma keeps_for_keys keys body :
  (forall k, keeps R (body k)) -> keeps R (for_keys keys body).
Proof.
  intros Hb. induction keys as [|k keys IH]; cbn [for_keys].
  - apply keeps_ret.
  - apply keeps_bind; [apply Hb|]. intros _. exact IH.
Qed.

(** What the handlers are made of. *)
Variable ws : conn.
Hypothesis R_now : keeps R now.
Hypothesis R_reply : forall e, keeps R (send (Some ws) e).
Hypothesis R_notify : forall e, is_error e = false -> keeps R (notify_all e).
Hypothesis R_guild :
  forall f : Guild -> Guild,
    (forall g, members (f g) = members g /\ guild_id (f g) = guild_id g) ->
    keeps R (modify_guild f).

Lemma keeps_send_none e : keeps R (send None e).
Proof. intros w. apply R_refl. Qed.

Lemma keeps_update_media_state_time : keeps R update_media_state_time.
Proof.
  unfold update_media_state_time.
  apply keeps_bind; [apply keeps_get_guild|]. intros g.
  apply keeps_bind.
  { destruct (playing (media_state g) && negb (was_paused g));
      [|apply keeps_ret].
    apply keeps_bind; [apply R_now|]. intros t.
    apply R_guild. split; reflexivity. }
  intros _. apply keeps_bind; [apply R_guild; split; reflexivity|].
  intros _. apply keeps_bind; [apply R_now|]. intros t.
  apply R_guild. split; reflexivity.
Qed.

Lemma media_state_event_not_error w e :
  result media_state_event w = Done e -> is_error e = false.
Proof.
  unfold result. rewrite media_state_event_run. cbn. intros [= <-]. reflexivity.
Qed.

Lemma users_event_not_error w e :
  result users_event w = Done e -> is_error e = false.
Proof. cbn. intros [= <-]. reflexivity. Qed.

Lemma queue_event_not_error w e :
  result queue_event w = Done e -> is_error e = false.
Proof. cbn. intros [= <-]. reflexivity. Qed.

Lemma keeps_media_state_event : keeps R media_state_event.
Proof.
  unfold media_state_event.
  apply keeps_bind; [apply keeps_update_media_state_time|]. intros _.
  apply keeps_bind; [apply keeps_get_guild|]. intros g. apply keeps_ret.
Qed.

Lemma keeps_broadcast_state : keeps R (let* e := media_state_event in notify_all e).
Proof.
  apply (keeps_bind_result (fun e => is_error e = false)).
  - apply keeps_media_state_event.
  - apply media_state_event_not_error.
  - apply R_notify.
Qed.

Lemma keeps_broadcast_users : keeps R (let* e := users_event in notify_all e).
Proof.
  apply (keeps_bind_result (fun e => is_error e = false)).
  - apply keeps_users_event.
  - apply users_event_not_error.
  - apply R_notify.
Qed.

Lemma keeps_broadcast_queue : keeps R (let* e := queue_event in notify_all e).
Proof.
  apply (keeps_bind_result (fun e => is_error e = false)).
  - apply keeps_queue_event.
  - apply queue_event_not_error.
  - apply R_notify.
Qed.

Lemma dict_set_members {V} k (v v' : V) d :
  dict_get k d = Some v' -> map fst (dict_set k v d) = map fst d.
Proof.
  induction d as [|[k' x] d IH]; cbn; [discriminate|].
  destruct (Nat.eqb k k') eqn:E; cbn; [reflexivity|].
  intros H. rewrite IH by exact H. reflexivity.
Qed.

Lemma keeps_update_user who f : keeps R (update_user who f).
Proof.
  intros w. unfold exec, update_user, user_of, bind, get_guild.
  destruct (dict_get who (users (guild w))) as [u|] eqn:E; cbn; [|apply R_refl].
  pose proof (R_guild (fun g =>
      match dict_get who (users g) with
      | Some _ => set_users (dict_set who (f u) (users g)) g
      | None => g
      end)) as H.
  assert (Hm : forall g,
      members (match dict_get who (users g) with
               | Some _ => set_users (dict_set who (f u) (users g)) g
               | None => g
               end) = members g
      /\ guild_id (match dict_get who (users g) with
                   | Some _ => set_users (dict_set who (f u) (users g)) g
                   | None => g
                   end) = guild_id g).
  { intros g. destruct (dict_get who (users g)) eqn:Eg; [|split; reflexivity].
    split; [|reflexivity]. unfold members. cbn. eapply dict_set_members. exact Eg. }
  specialize (H Hm w). unfold exec, modify_guild, bind, get_guild, put_guild in H.
  cbn in H. rewrite E in H. exact H.
Qed.

Lemma keeps_action_set_profile data : keeps R (action_set_profile ws data).
Proof.
  unfold action_set_profile. apply keeps_bind.
  - apply keeps_for_keys. intros k.
    apply keeps_bind; [apply keeps_assert|]. intros _. apply keeps_update_user.
  - intros _. apply keeps_broadcast_users.
Qed.

Lemma keeps_action_play_pause v : keeps R (action_play_pause ws v).
Proof.
  destruct v; try apply keeps_raise.
  unfold action_play_pause.
  apply keeps_bind; [apply R_guild; split; reflexivity|]. intros _.
  apply keeps_broadcast_state.
Qed.

Lemma clear_finished_members g :
  members (set_users (clear_finished (users g)) g) = members g
  /\ guild_id (set_users (clear_finished (users g)) g) = guild_id g.
Proof. split; [|reflexivity]. unfold members. cbn. apply clear_finished_keys. Qed.

Lemma keeps_action_jump (to : option conn) data :
  to = Some ws \/ to = None -> keeps R (action_jump to data).
Proof.
  intros Hto.
  assert (Hsend : forall e, keeps R (send to e))
    by (intros e; destruct Hto as [-> | ->]; [apply R_reply|apply keeps_send_none]).
  unfold action_jump.
  apply keeps_bind; [apply keeps_subscript|]. intros index_v.
  apply keeps_bind; [apply keeps_as_int|]. intros index.
  apply keeps_bind.
  { destruct (has_key data "time"); [|apply keeps_ret].
    apply keeps_bind; [apply keeps_subscript|]. intros v. apply keeps_as_int. }
  intros time. apply keeps_bind; [apply keeps_get_guild|]. intros g.
  match goal with |- keeps R (if ?b then _ else _) => destruct b end;
    [apply Hsend|].
  destruct (queue g !! _) as [video|]; [|apply keeps_raise].
  match goal with |- keeps R (if ?b then _ else _) => destruct b end;
    [apply Hsend|].
  apply keeps_bind; [apply R_guild; apply clear_finished_members|]. intros _.
  apply keeps_bind; [apply R_guild; split; reflexivity|]. intros _.
  apply keeps_bind; [apply R_now|]. intros t.
  apply keeps_bind; [apply R_guild; split; reflexivity|]. intros _.
  apply keeps_bind; [apply R_guild; split; reflexivity|]. intros _.
  apply keeps_broadcast_state.
Qed.

Lemma keeps_enqueue item : keeps R (enqueue ws item).
Proof.
  unfold enqueue.
  apply keeps_bind; [apply keeps_update_media_state_time|]. intros _.
  apply keeps_bind; [apply keeps_get_guild|]. intros g.
  apply keeps_bind; [apply R_guild; split; reflexivity|]. intros _.
  apply (keeps_bind_result (fun e => is_error e = false));
    [apply keeps_queue_event|apply queue_event_not_error|].
  intros e He. apply keeps_bind; [apply R_notify; exact He|]. intros _.
  match goal with |- keeps R (if ?b then _ else _) => destruct b end;
    [apply keeps_action_jump; left; reflexivity|apply keeps_ret].
Qed.

Lemma keeps_action_add data : keeps R (action_add ws data).
Proof.
  unfold action_add.
  apply keeps_bind; [apply keeps_assert|]. intros _.
  apply keeps_bind; [apply keeps_get_env|]. intros e.
  destruct (has_key data "url").
  - apply keeps_bind.
    + apply keeps_catch.
      * apply keeps_bind; [apply keeps_subscript|]. intros v.
        destruct (get_song e v); [apply keeps_ret|apply keeps_raise].
      * intros []; try apply keeps_raise. apply keeps_ret.
    + intros [song|]; [apply keeps_enqueue|apply R_reply].
  - apply keeps_bind; [apply keeps_subscript|]. intros q.
    destruct (search e q); [apply keeps_raise|apply keeps_enqueue].
Qed.

Lemma keeps_action_remove v : keeps R (action_remove ws v).
Proof.
  unfold action_remove.
  apply keeps_bind; [apply keeps_as_int|]. intros index.
  apply keeps_bind; [apply keeps_assert|]. intros _.
  apply keeps_bind; [apply keeps_get_guild|]. intros g.
  destruct (py_index (queue g) index); [|apply R_reply].
  apply keeps_bind; [apply R_guild; split; reflexivity|]. intros _.
  apply keeps_broadcast_queue.
Qed.

Lemma keeps_action_mark_finished : keeps R (action_mark_finished ws).
Proof.
  unfold action_mark_finished.
  apply keeps_bind; [apply keeps_update_user|]. intros _.
  apply keeps_bind; [apply keeps_get_guild|]. intros g.
  match goal with |- keeps R (if ?b then _ else _) => destruct b end;
    [|apply keeps_ret].
  apply keeps_bind; [apply R_guild; apply clear_finished_members|]. intros _.
  apply keeps_bind; [apply keeps_get_guild|]. intros g'.
  match goal with |- keeps R (if ?b then _ else _) => destruct b end;
    [apply keeps_action_jump; right; reflexivity|apply keeps_ret].
Qed.

Lemma keeps_dispatch action data : keeps R (dispatch ws action data).
Proof.
  unfold dispatch.
  destruct (is_str action "set_profile"); [apply keeps_action_set_profile|].
  destruct (is_str action "play" || is_str action "pause");
    [apply keeps_action_play_pause|].
  destruct (is_str action "add"); [apply keeps_action_add|].
  destruct (is_str action "remove").
  { apply keeps_bind; [apply keeps_subscript|]. intros v.
    apply keeps_action_remove. }
  destruct (is_str action "jump"); [apply keeps_action_jump; left; reflexivity|].
  destruct (is_str action "finished"); [apply keeps_action_mark_finished|].
  apply R_reply.
Qed.

Lemma keeps_handle_message msg : keeps R (handle_message ws msg).
Proof.
  destruct msg as [|data| |e]; cbn [handle_message].
  - apply R_reply.
  - destruct (data !! "action") as [action|]; [|apply R_reply].
    apply keeps_catch; [apply keeps_dispatch|].
    intros []; apply R_reply.
  - apply keeps_raise.
  - destruct e; try apply keeps_raise. apply R_reply.
Qed.

End Keeps.

(** ** The message loop *)

Lemma same_members_refl w : same_members w w.
Proof. split; reflexivity. Qed.

Lemma same_members_trans w1 w2 w3 :
  same_members w1 w2 -> same_members w2 w3 -> same_members w1 w3.
Proof.
  unfold same_members. intros [H1 H1'] [H2 H2']. rewrite H2, H2'.
  split; assumption.
Qed.

Lemma handle_message_same_members ws msg :
  keeps same_members (handle_message ws msg).
Proof.
  apply (keeps_handle_message same_members same_members_refl same_members_trans ws).
  - intros w'. split; reflexivity.
  - intros e w'. split; reflexivity.
  - intros e _ w'. split; reflexivity.
  - intros f Hf w'. apply Hf.
Qed.

(** X1. No message changes who is in the room: whatever is received, and
    however it is handled, the member connections after the turn are the
    ones before it, in the same order, and the room keeps its name. *)
Theorem actions_keep_membership (ws : conn) (msg : message) (w : World) :
  members (guild (exec (handle_message ws msg) w)) = members (guild w)
  /\ guild_id (guild (exec (handle_message ws msg) w)) = guild_id (guild w).
Proof. apply handle_message_same_members. Qed.

Lemma errors_only_to_refl ws w : errors_only_to ws w w.
Proof. exists []. split; [rewrite app_nil_r; reflexivity|constructor]. Qed.

Lemma errors_only_to_trans ws w1 w2 w3 :
  errors_only_to ws w1 w2 -> errors_only_to ws w2 w3 -> errors_only_to ws w1 w3.
Proof.
  intros (x1 & H1 & F1) (x2 & H2 & F2). exists (x1 ++ x2). split.
  - rewrite H2, H1, app_assoc. reflexivity.
  - apply Forall_app. split; assumption.
Qed.

(** X2. Handling a message only ever adds to what is sent, and an error
    event is never broadcast: every error event a turn of the loop sends is
    addressed to the connection the message came from. *)
Theorem errors_go_to_the_sender (ws : conn) (msg : message) (w : World) :
  exists extra,
    outbox (exec (handle_message ws msg) w) = outbox w ++ extra
    /\ sent (handle_message ws msg) w = extra
    /\ forall to error text, In (to, EvError error text) extra -> to = ws.
Proof.
  destruct (keeps_handle_message (errors_only_to ws)
              (errors_only_to_refl ws) (errors_only_to_trans ws) ws) with
    (msg := msg) (w := w) as (extra & Hout & Hall).
  - intros w'. exists []. split; [rewrite app_nil_r; reflexivity|constructor].
  - intros e w'. exists [(ws, e)]. split; [reflexivity|].
    constructor; [intros _; reflexivity|constructor].
  - intros e He w'. exists (broadcast (guild w') e). split; [reflexivity|].
    unfold broadcast. apply Forall_map, Forall_forall. intros u _ Herr.
    cbn in Herr. congruence.
  - intros f _ w'. exists []. split; [rewrite app_nil_r; reflexivity|constructor].
  - exists extra. split; [exact Hout|]. split; [apply sent_appended; exact Hout|].
    intros to error text Hin. rewrite Forall_forall in Hall.
    apply (Hall (to, EvError error text)); [|reflexivity].
    apply list_elem_of_In. exact Hin.
Qed.

(** What a turn of the loop ends with *)
Lemma turn_outcome (ws : conn) (msg : message) (w : World) :
  (frame_error msg = None -> result (handle_message ws msg) w = Done tt)
  /\ (forall e,
        frame_error msg = Some e ->
        handle_message ws msg w = (Raised e, w)).
Proof.
  split.
  - unfold result. destruct msg as [|data| |e]; cbn [handle_message frame_error].
    + reflexivity.
    + intros _. destruct (data !! "action") as [action|]; [|reflexivity].
      unfold catch. destruct (dispatch ws action data w) as [[[]|e] w1];
        [reflexivity|]. destruct e; reflexivity.
    + discriminate.
    + destruct e; try discriminate. reflexivity.
  - intros e. destruct msg as [|data| |e']; cbn [handle_message frame_error];
      try discriminate.
    + intros [= <-]. reflexivity.
    + destruct e'; intros [= <-]; reflexivity.
Qed.

(** X3. No exception raised by a handler leaves a turn of the loop. A
    frame that decodes to an object, or that json.loads rejects with a
    JSONDecodeError, always ends its turn normally, whatever the handler
    raised, and the loop goes on.  A turn raises only for a frame that
    decodes to something other than an object (TypeError) or that json.loads
    rejects with another exception; then nothing is sent and nothing in the
    room changes, and the exception leaves the loop. *)
Theorem turn_raises_for_frames_only (ws : conn) (msg : message) (w : World) :
  (frame_error msg = None -> result (handle_message ws msg) w = Done tt)
  /\ (forall e,
        frame_error msg = Some e ->
        handle_message ws msg w = (Raised e, w)).
Proof.
  exact (turn_outcome ws msg w).
Qed.

Lemma turn_raises_for_frames_only_witness :
  result (say 1 [("action", JStr "finished")]) second_removed = Done tt
  /\ handle_message 1 NotAnObject second_removed = (Raised TypeError, second_removed).
Proof.
  destruct (turn_raises_for_frames_only 1 (request [("action", JStr "finished")])
              second_removed) as [H _].
  destruct (turn_raises_for_frames_only 1 NotAnObject second_removed) as [_ H'].
  split; [exact (H eq_refl)|exact (H' TypeError eq_refl)].
Defined.

(** X4. A frame that json.loads rejects with a JSONDecodeError, an object
    without an action, or an object whose action is none of the seven,
    changes nothing in the room: the sender alone is sent a RequestError
    event, "No action given." in the first two cases and "Invalid action
    given." in the third.  A frame that decodes to something other than an
    object gets no answer at all: the turn raises TypeError and the room is
    as it was. *)
Theorem unusable_message (ws : conn) (w : World) :
  exec (handle_message ws Undecodable) w
  = with_outbox w (outbox w ++ [(ws, EvError "RequestError" "No action given.")])
  /\ (forall data,
        data !! "action" = None ->
        exec (handle_message ws (Decoded data)) w
        = with_outbox w (outbox w ++ [(ws, EvError "RequestError" "No action given.")]))
  /\ (forall data action,
        data !! "action" = Some action ->
        known_action action = false ->
        exec (handle_message ws (Decoded data)) w
        = with_outbox w
            (outbox w ++ [(ws, EvError "RequestError" "Invalid action given.")]))
  /\ handle_message ws NotAnObject w = (Raised TypeError, w)
  /\ handle_message ws (Unloadable UnicodeDecodeError) w
     = (Raised UnicodeDecodeError, w).
Proof.
  split; [reflexivity|]. split; [|split; [|split; reflexivity]].
  - intros data Ha. unfold handle_message. rewrite Ha. reflexivity.
  - intros data action Ha Hk. unfold handle_message. rewrite Ha.
    unfold known_action in Hk. rewrite !orb_false_iff in Hk.
    destruct Hk as ((((((H1 & H2) & H3) & H4) & H5) & H6) & H7).
    unfold dispatch. rewrite H1, H2, H3, H4, H5, H6, H7. reflexivity.
Qed.

Lemma unusable_message_witness :
  exec (say 1 [("action", JStr "stop")]) playing_world
  = with_outbox playing_world
      [(1%nat, EvError "RequestError" "Invalid action given.")].
Proof.
  destruct (unusable_message 1 playing_world) as (_ & _ & H & _).
  apply (H (dict_of [("action", JStr "stop")]) (JStr "stop")); reflexivity.
Defined.

(** ** More on the clock *)

(** X5. With the current time within its bounds and a clock that has not
    gone back past the last update, a reconciliation never moves the
    current time backwards and never past the length; and it keeps the
    length, the index, the playing flag, the queue and the members. *)
Theorem reconciliation_only_moves_forward (w : World) :
  time_bounds (guild w) ->
  last_update_time (guild w) <= wall (env w) (ticks w) ->
  let w' := exec update_media_state_time w in
  current_time (media_state (guild w)) <= current_time (media_state (guild w'))
  /\ current_time (media_state (guild w')) <= ms_length (media_state (guild w'))
  /\ ms_length (media_state (guild w')) = ms_length (media_state (guild w))
  /\ queue_index (media_state (guild w')) = queue_index (media_state (guild w))
  /\ playing (media_state (guild w')) = playing (media_state (guild w))
  /\ queue (guild w') = queue (guild w)
  /\ users (guild w') = users (guild w).
Proof.
  intros [H0 Hlen] Hclock w'. subst w'.
  rewrite update_ms_length, update_queue_index, update_playing, update_queue,
    update_users.
  assert (Hct : current_time (media_state (guild w))
                <= current_time (media_state (guild (exec update_media_state_time w)))
                <= ms_length (media_state (guild w))).
  { unfold exec. rewrite update_media_state_time_run.
    destruct (advancing (guild w)); cbn; [|lia].
    pose proof (elapsed_seconds_nonneg _ _ Hclock). lia. }
  repeat split; try reflexivity; lia.
Qed.

Lemma reconciliation_only_moves_forward_witness :
  0 <= current_time (media_state (guild (exec update_media_state_time playing_world)))
  <= 200.
Proof.
  destruct (reconciliation_only_moves_forward playing_world) as (H1 & H2 & H3 & _).
  - unfold time_bounds. cbn. lia.
  - vm_compute. discriminate.
  - rewrite H3 in H2. exact (conj H1 H2).
Defined.

(** A reconciliation less than a second after the last update adds nothing,
    and still moves the last update to the newest reading. *)
Lemma update_within_the_second w :
  0 <= wall (env w) (ticks w) - last_update_time (guild w) < 1000000 ->
  time_bounds (guild w) ->
  let w' := exec update_media_state_time w in
  media_state (guild w') = media_state (guild w)
  /\ last_update_time (guild w') = wall (env w) (Nat.pred (ticks w'))
  /\ (ticks w < ticks w')%nat
  /\ env w' = env w.
Proof.
  intros Hgap [H0 Hlen] w'. subst w'. unfold exec.
  rewrite update_media_state_time_run.
  destruct (advancing (guild w)); cbn; repeat split; try lia.
  unfold elapsed_seconds. rewrite Z.quot_small by exact Hgap.
  destruct (media_state (guild w)) as [ct len pl qi]. cbn in *.
  unfold set_current_time. cbn. f_equal. lia.
Qed.

(** X6. Reads of the state that follow each other by less than a second
    never advance the clock, however many there are and however much time
    they span together: each one drops the fraction of a second it found and
    restarts the count. *)
Theorem polling_stalls_the_clock (n : nat) (w : World) :
  time_bounds (guild w) ->
  0 <= wall (env w) (ticks w) - last_update_time (guild w) < 1000000 ->
  (forall k, 0 <= wall (env w) (S k) - wall (env w) k < 1000000) ->
  media_state (guild (exec (poll n) w)) = media_state (guild w)
  /\ (ticks w + n <= ticks (exec (poll n) w))%nat.
Proof.
  revert w. induction n as [|n IH]; intros w Hb Hgap Hwall.
  - split; [reflexivity|cbn; lia].
  - cbn [poll]. unfold exec, bind. rewrite media_state_event_run. cbn [fst snd].
    fold (exec (poll n) (exec update_media_state_time w)).
    destruct (update_within_the_second w Hgap Hb) as (Hms & Hlast & Ht & He).
    set (w1 := exec update_media_state_time w) in *.
    destruct (IH w1) as [Hms' Ht'].
    + unfold time_bounds. rewrite Hms. exact Hb.
    + rewrite Hlast, He.
      pose proof (Hwall (Nat.pred (ticks w1))) as Hk.
      replace (S (Nat.pred (ticks w1))) with (ticks w1) in Hk by lia.
      exact Hk.
    + rewrite He. exact Hwall.
    + split; [rewrite Hms', Hms; reflexivity|lia].
Qed.

Lemma polling_stalls_the_clock_witness :
  current_time
    (media_state (guild (exec (poll 3000) (world_at every_ms playing_guild)))) = 0
  /\ (3001 <= ticks (exec (poll 3000) (world_at every_ms playing_guild)))%nat.
Proof.
  destruct (polling_stalls_the_clock 3000 (world_at every_ms playing_guild))
    as [Hms Ht].
  - unfold time_bounds. cbn. lia.
  - vm_compute. split; [discriminate|reflexivity].
  - intros k. cbn. unfold every_ms. lia.
  - split; [rewrite Hms; reflexivity|exact Ht].
Defined.

(** X7. The time a room spends paused is never counted. After a pause and,
    whenever later, a play request, the first read of the state adds to the
    current time the pause left the whole seconds between the play request
    and the read, and nothing else, capped at the length. *)
Theorem paused_time_is_not_counted
    (ws ws' : conn) (w resumed_at read_at : World) :
  let paused := exec (action_play_pause ws (JBool false)) w in
  guild resumed_at = guild paused ->
  let resumed := exec (action_play_pause ws' (JBool true)) resumed_at in
  guild read_at = guild resumed ->
  let t_play := wall (env resumed_at) (ticks resumed_at) in
  let t_read := wall (env read_at) (ticks read_at) in
  t_play <= t_read ->
  playing (media_state (guild resumed)) = true
  /\ current_time (media_state (guild resumed))
     = current_time (media_state (guild paused))
  /\ current_time (media_state (guild (exec media_state_event read_at)))
     = Z.min (current_time (media_state (guild paused)) + (t_read - t_play) / 1000000)
             (ms_length (media_state (guild paused))).
Proof.
  intros paused Hres resumed Hread t_play t_read Hle.
  assert (Hp : playing (media_state (guild paused)) = false)
    by apply play_pause_sets_playing.
  assert (Hwp : was_paused (guild paused) = true).
  { unfold paused, exec. rewrite action_play_pause_run. cbn [snd guild].
    rewrite update_was_paused. reflexivity. }
  assert (Hresumed : guild resumed
    = set_last_update_time t_play
        (set_was_paused false
           (set_media_state (set_playing true (media_state (guild paused)))
              (guild paused)))).
  { unfold resumed, exec. rewrite action_play_pause_run. cbn [snd guild].
    unfold exec. rewrite update_media_state_time_run. unfold advancing.
    cbn [guild media_state set_media_state set_playing playing was_paused].
    rewrite Hres, Hwp. reflexivity. }
  split; [rewrite Hresumed; reflexivity|].
  split; [rewrite Hresumed; reflexivity|].
  rewrite media_state_event_exec. unfold exec.
  rewrite update_media_state_time_run. unfold advancing.
  rewrite Hread, Hresumed. cbn.
  fold t_read. rewrite elapsed_seconds_floor by exact Hle. reflexivity.
Qed.

Lemma paused_time_is_not_counted_witness :
  let paused := exec (action_play_pause 1 (JBool false)) playing_world in
  let resumed := exec (action_play_pause 2 (JBool true)) paused in
  current_time (media_state (guild (exec media_state_event resumed))) = 30.
Proof.
  cbn zeta.
  destruct (paused_time_is_not_counted 1 2 playing_world
              (exec (action_play_pause 1 (JBool false)) playing_world)
              (exec (action_play_pause 2 (JBool true))
                 (exec (action_play_pause 1 (JBool false)) playing_world))
              eq_refl eq_refl) as (_ & _ & H).
  - vm_compute. discriminate.
  - rewrite H. reflexivity.
Defined.

(** ** Joining and leaving *)

Lemma dict_get_set_other {V} k k' (v : V) d :
  k' <> k -> dict_get k' (dict_set k v d) = dict_get k' d.
Proof.
  intros Hne. induction d as [|[k0 v0] d IH]; cbn.
  - destruct (Nat.eqb k' k) eqn:E; [apply Nat.eqb_eq in E; contradiction|reflexivity].
  - destruct (Nat.eqb k k0) eqn:E; cbn.
    + apply Nat.eqb_eq in E. subst k0.
      destruct (Nat.eqb k' k) eqn:E'; [apply Nat.eqb_eq in E'; contradiction|reflexivity].
    + destruct (Nat.eqb k' k0); [reflexivity|exact IH].
Qed.

Lemma dict_set_new_member {V} k (v : V) d :
  dict_get k d = None -> map fst (dict_set k v d) = map fst d ++ [k].
Proof.
  induction d as [|[k0 v0] d IH]; cbn; [reflexivity|].
  destruct (Nat.eqb k k0); [discriminate|]. intros H. cbn. rewrite IH by exact H.
  reflexivity.
Qed.

Lemma dict_get_pop_same {V} k (d : list (conn * V)) :
  dict_get k (dict_pop k d) = None.
Proof.
  induction d as [|[k0 v0] d IH]; cbn; [reflexivity|].
  destruct (Nat.eqb k k0) eqn:E; [exact IH|]. cbn. rewrite E. exact IH.
Qed.

Lemma dict_get_pop_other {V} k k' (d : list (conn * V)) :
  k' <> k -> dict_get k' (dict_pop k d) = dict_get k' d.
Proof.
  intros Hne. induction d as [|[k0 v0] d IH]; cbn; [reflexivity|].
  destruct (Nat.eqb k k0) eqn:E; cbn.
  - apply Nat.eqb_eq in E. subst k0.
    destruct (Nat.eqb k' k) eqn:E'; [apply Nat.eqb_eq in E'; contradiction|exact IH].
  - destruct (Nat.eqb k' k0); [reflexivity|exact IH].
Qed.

Lemma dict_pop_stranger {V} k (d : list (conn * V)) :
  dict_get k d = None -> dict_pop k d = d.
Proof.
  induction d as [|[k0 v0] d IH]; cbn; [reflexivity|].
  destruct (Nat.eqb k k0); [discriminate|]. intros H. rewrite IH by exact H.
  reflexivity.
Qed.

Lemma dict_pop_set_new {V} k (v : V) d :
  dict_get k d = None -> dict_pop k (dict_set k v d) = d.
Proof.
  induction d as [|[k0 v0] d IH]; cbn.
  - rewrite Nat.eqb_refl. reflexivity.
  - destruct (Nat.eqb k k0) eqn:E; [discriminate|]. intros H. cbn. rewrite E.
    rewrite IH by exact H. reflexivity.
Qed.

Lemma register_run ws w :
  register ws w =
  let g1 := set_users (dict_set ws (newcomer ws) (users (guild w))) (guild w) in
  let w1 := {| guild := g1; env := env w; ticks := ticks w;
               outbox := outbox w ++ broadcast g1 (users_report g1)
                         ++ [(ws, EvQueue (queue g1))] |} in
  let w2 := exec update_media_state_time w1 in
  (Done tt, with_outbox w2 (outbox w2 ++ [(ws, EvState (media_state (guild w2)))])).
Proof.
  unfold register, bind, modify_guild, get_guild, put_guild, bind, users_event,
    queue_event, notify_all, send, get_guild, bind, ret. cbn.
  rewrite media_state_event_run. cbn. rewrite <- app_assoc. reflexivity.
Qed.

Lemma register_users ws w :
  users (guild (exec (register ws) w))
  = dict_set ws (newcomer ws) (users (guild w)).
Proof.
  unfold exec at 1. rewrite register_run. cbn [snd guild with_outbox].
  rewrite update_users. reflexivity.
Qed.

Lemma register_queue ws w :
  queue (guild (exec (register ws) w)) = queue (guild w).
Proof.
  unfold exec at 1. rewrite register_run. cbn [snd guild with_outbox].
  rewrite update_queue. reflexivity.
Qed.

(** X8. Joining. The connection becomes a member marked as finished and
    without a profile (a second join of a member resets it in place), the
    other members' records are not touched, nor is the queue; a new member
    goes last.  Every member, the newcomer included, is sent the member
    list; the newcomer alone is then sent the queue and the media state. *)
Theorem register_joins (ws : conn) (w : World) :
  let w' := exec (register ws) w in
  result (register ws) w = Done tt
  /\ dict_get ws (users (guild w')) = Some (newcomer ws)
  /\ finished (newcomer ws) = true
  /\ (forall other, other <> ws ->
        dict_get other (users (guild w')) = dict_get other (users (guild w)))
  /\ (dict_get ws (users (guild w)) = None ->
        members (guild w') = members (guild w) ++ [ws])
  /\ (is_Some (dict_get ws (users (guild w))) ->
        members (guild w') = members (guild w))
  /\ queue (guild w') = queue (guild w)
  /\ sent (register ws) w
     = broadcast (guild w') (users_report (guild w'))
       ++ [(ws, EvQueue (queue (guild w))); (ws, EvState (media_state (guild w')))].
Proof.
  intros w'.
  pose proof (register_run ws w) as Hrun. cbn zeta in Hrun.
  set (g1 := set_users (dict_set ws (newcomer ws) (users (guild w))) (guild w)) in *.
  set (w1 := {| guild := g1; env := env w; ticks := ticks w;
                outbox := outbox w ++ broadcast g1 (users_report g1)
                          ++ [(ws, EvQueue (queue g1))] |}) in *.
  assert (Hw' : w' = with_outbox (exec update_media_state_time w1)
                       (outbox (exec update_media_state_time w1)
                        ++ [(ws, EvState (media_state
                                            (guild (exec update_media_state_time w1))))]))
    by (unfold w', exec at 1; rewrite Hrun; reflexivity).
  assert (Hu : users (guild w') = dict_set ws (newcomer ws) (users (guild w)))
    by (rewrite Hw'; cbn [guild with_outbox]; rewrite update_users; reflexivity).
  split; [unfold result; rewrite Hrun; reflexivity|].
  split; [rewrite Hu; apply dict_get_set_same|].
  split; [reflexivity|].
  split; [intros other Hne; rewrite Hu; apply dict_get_set_other; exact Hne|].
  split; [intros Hnew; unfold members; rewrite Hu;
          apply dict_set_new_member; exact Hnew|].
  split; [intros [u Hold]; unfold members; rewrite Hu;
          eapply dict_set_members; exact Hold|].
  split; [rewrite Hw'; cbn [guild with_outbox]; rewrite update_queue; reflexivity|].
  apply sent_appended. fold w'. rewrite Hw' at 1. cbn [outbox with_outbox].
  rewrite update_outbox. cbn [outbox w1].
  unfold broadcast, users_report. rewrite Hu. cbn [users queue g1 set_users].
  rewrite <- !app_assoc. cbn [app]. rewrite Hw'. reflexivity.
Qed.

Lemma register_joins_witness :
  members (guild (exec (register 7) playing_world)) = [1; 2; 7]%nat.
Proof.
  destruct (register_joins 7 playing_world) as (_ & _ & _ & _ & H & _).
  exact (H eq_refl).
Defined.

Lemma unregister_run ws w :
  unregister ws w =
  let g1 := set_users (dict_pop ws (users (guild w))) (guild w) in
  (Done tt, {| guild := g1; env := env w; ticks := ticks w;
               outbox := outbox w ++ broadcast g1 (users_report g1) |}).
Proof. reflexivity. Qed.

(** X9. Leaving. The connection is no longer a member, the others keep
    their records and their order, and the remaining members are sent the
    new member list.  The media state, the queue and the clock bookkeeping
    are untouched: a departure never makes the room advance, even when the
    one who left was the only member not yet finished.  For a connection
    that is not a member the membership stays as it is. *)
Theorem unregister_leaves (ws : conn) (w : World) :
  let w' := exec (unregister ws) w in
  result (unregister ws) w = Done tt
  /\ users (guild w') = dict_pop ws (users (guild w))
  /\ dict_get ws (users (guild w')) = None
  /\ (forall other, other <> ws ->
        dict_get other (users (guild w')) = dict_get other (users (guild w)))
  /\ (dict_get ws (users (guild w)) = None -> users (guild w') = users (guild w))
  /\ media_state (guild w') = media_state (guild w)
  /\ queue (guild w') = queue (guild w)
  /\ last_update_time (guild w') = last_update_time (guild w)
  /\ was_paused (guild w') = was_paused (guild w)
  /\ sent (unregister ws) w = broadcast (guild w') (users_report (guild w')).
Proof.
  intros w'. unfold w', exec, result. rewrite unregister_run. cbn.
  repeat split.
  - apply dict_get_pop_same.
  - intros other Hne. apply dict_get_pop_other. exact Hne.
  - apply dict_pop_stranger.
  - apply sent_appended. unfold exec. rewrite unregister_run. reflexivity.
Qed.

Lemma unregister_leaves_witness :
  users (guild (exec (unregister 7) playing_world)) = users (guild playing_world).
Proof.
  destruct (unregister_leaves 7 playing_world) as (_ & _ & _ & _ & H & _).
  exact (H eq_refl).
Defined.

(** X10. A connection that joins and leaves at once leaves the membership
    as it found it, every record and the order included. *)
Theorem join_then_leave (ws : conn) (w : World) :
  dict_get ws (users (guild w)) = None ->
  users (guild (exec (register ws ;; unregister ws) w)) = users (guild w)
  /\ queue (guild (exec (register ws ;; unregister ws) w)) = queue (guild w).
Proof.
  intros Hnew.
  assert (Hrun : exec (register ws ;; unregister ws) w
                 = exec (unregister ws) (exec (register ws) w)).
  { unfold exec, bind. rewrite register_run. reflexivity. }
  rewrite Hrun. unfold exec at 1 3. rewrite !unregister_run.
  cbn [snd guild set_users users queue].
  rewrite register_users, register_queue.
  split; [apply dict_pop_set_new; exact Hnew|reflexivity].
Qed.

Lemma join_then_leave_witness :
  users (guild (exec (register 7 ;; unregister 7) playing_world))
  = [member 1 false; member 2 false].
Proof.
  destruct (join_then_leave 7 playing_world eq_refl) as [H _]. exact H.
Defined.

(** ** Profiles, again *)

Lemma dict_set_twice {V} k (v1 v2 : V) d :
  dict_set k v2 (dict_set k v1 d) = dict_set k v2 d.
Proof.
  induction d as [|[k0 v0] d IH]; cbn.
  - rewrite Nat.eqb_refl. reflexivity.
  - destruct (Nat.eqb k k0) eqn:E; cbn; rewrite E; [reflexivity|].
    rewrite IH. reflexivity.
Qed.

Lemma action_set_profile_run ws data u w :
  dict_get ws (users (guild w)) = Some u ->
  action_set_profile ws data w =
  let g1 := set_users (dict_set ws (profile_of data u) (users (guild w))) (guild w) in
  (Done tt, {| guild := g1; env := env w; ticks := ticks w;
               outbox := outbox w ++ broadcast g1 (users_report g1) |}).
Proof.
  intros Hu. unfold action_set_profile. cbn [for_keys]. unfold assert.
  unfold bind at 1. unfold bind at 1. unfold bind at 1. cbn [ret].
  rewrite (update_user_run ws _ u w Hu).
  unfold bind at 1. unfold bind at 1. cbn [ret].
  rewrite (update_user_run ws _ (set_profile_key KName (data !! key_string KName) u))
    by (cbn [guild set_users users]; apply dict_get_set_same).
  unfold bind at 1. unfold bind at 1. cbn [ret].
  rewrite (update_user_run ws _
             (set_profile_key KIdentifier (data !! key_string KIdentifier)
                (set_profile_key KName (data !! key_string KName) u)))
    by (cbn [guild set_users users]; apply dict_get_set_same).
  cbn [guild set_users users env ticks outbox].
  rewrite !dict_set_twice. reflexivity.
Qed.

(** X11. Setting a profile. For a member, each of name, identifier and art
    becomes what the request carries, or absent when the request has no such
    key; the member's id and finished flag stay, and so do the other
    members, the media state and the queue; every member is sent the new
    member list.  The last request wins outright: nothing of an earlier
    profile survives a later request. *)
Theorem set_profile_replaces (ws : conn) (data : gmap string json) (u : User)
    (w : World) :
  dict_get ws (users (guild w)) = Some u ->
  let w' := exec (action_set_profile ws data) w in
  result (action_set_profile ws data) w = Done tt
  /\ dict_get ws (users (guild w'))
     = Some {| user_id := user_id u; finished := finished u;
               name := data !! "name"; identifier := data !! "identifier";
               art := data !! "art" |}
  /\ (forall other, other <> ws ->
        dict_get other (users (guild w')) = dict_get other (users (guild w)))
  /\ members (guild w') = members (guild w)
  /\ media_state (guild w') = media_state (guild w)
  /\ queue (guild w') = queue (guild w)
  /\ sent (action_set_profile ws data) w
     = broadcast (guild w') (users_report (guild w'))
  /\ (forall earlier,
        users (guild (exec (action_set_profile ws data)
                        (exec (action_set_profile ws earlier) w)))
        = users (guild w')).
Proof.
  intros Hu w'. pose proof (action_set_profile_run ws data u w Hu) as Hrun.
  cbn zeta in Hrun. unfold w', exec, result. rewrite Hrun. cbn [fst snd guild].
  cbn [set_users users media_state queue].
  split; [reflexivity|].
  split; [apply dict_get_set_same|].
  split; [intros other Hne; apply dict_get_set_other; exact Hne|].
  split; [unfold members; cbn; eapply dict_set_members; exact Hu|].
  split; [reflexivity|]. split; [reflexivity|].
  split; [apply sent_appended; unfold exec; rewrite Hrun; reflexivity|].
  intros earlier.
  rewrite (action_set_profile_run ws earlier u w Hu). cbn zeta. cbn [snd].
  rewrite (action_set_profile_run ws data (profile_of earlier u))
    by (cbn [guild set_users users]; apply dict_get_set_same).
  cbn. apply dict_set_twice.
Qed.

Lemma set_profile_replaces_witness :
  dict_get 1
    (users (guild (exec (action_set_profile 1 (dict_of [("name", JStr "ann")]))
                     playing_world)))
  = Some {| user_id := 1; finished := false; name := Some (JStr "ann");
            identifier := None; art := None |}.
Proof.
  destruct (set_profile_replaces 1 (dict_of [("name", JStr "ann")])
              (snd (member 1 false)) playing_world eq_refl) as (_ & H & _).
  exact H.
Defined.

(** ** Adding, again *)

Lemma handle_add ws data w :
  data !! "action" = Some (JStr "add") ->
  handle_message ws (Decoded data) w
  = catch (action_add ws data)
      (fun x => match x with
                | KeyError | AssertionError =>
                    send (Some ws) (error_event "RequestError" "Malformed request.")
                | _ => send (Some ws)
                         (error_event "Error" "An unexpected error occurred.")
                end) w.
Proof. intros Ha. unfold handle_message. rewrite Ha. reflexivity. Qed.

(** X12. An add request that does not get as far as a song leaves the room
    exactly as it was, the clock bookkeeping included, and tells the sender
    alone: RequestError when it has neither "query" nor "video_id", or has
    no "url" and no "query"; InvalidVideoError when it has "url" and the
    lookup of its "video_id" fails or there is no "video_id" to look up;
    the generic Error when the search for its query finds nothing. *)
Theorem add_failures_change_nothing (ws : conn) (data : gmap string json)
    (w : World) :
  data !! "action" = Some (JStr "add") ->
  let w' := exec (handle_message ws (Decoded data)) w in
  let told error text := w' = with_outbox w (outbox w ++ [(ws, EvError error text)]) in
  (data !! "query" = None -> data !! "video_id" = None ->
     told "RequestError" "Malformed request.")
  /\ (data !! "url" = None -> data !! "query" = None ->
     told "RequestError" "Malformed request.")
  /\ (is_Some (data !! "url") -> is_Some (data !! "query") ->
      data !! "video_id" = None ->
     told "InvalidVideoError" "The video ID provided was not a valid video.")
  /\ (forall video_id,
        is_Some (data !! "url") -> data !! "video_id" = Some video_id ->
        get_song (env w) video_id = None ->
        told "InvalidVideoError" "The video ID provided was not a valid video.")
  /\ (forall query,
        data !! "url" = None -> data !! "query" = Some query ->
        search (env w) query = [] ->
        told "Error" "An unexpected error occurred.").
Proof.
  intros Ha w' told. unfold told, w', exec. rewrite (handle_add ws data w Ha).
  unfold catch, action_add, has_key, subscript, assert, bind, get_env.
  repeat split.
  - intros -> ->. reflexivity.
  - intros -> ->. destruct (data !! "video_id"); reflexivity.
  - intros [u ->] [q ->] ->. reflexivity.
  - intros v [u ->] -> Hs. rewrite orb_true_r. cbn [ret raise fst snd].
    rewrite Hs. reflexivity.
  - intros q -> -> Hs. cbn [orb ret raise fst snd]. rewrite Hs. reflexivity.
Qed.

Lemma add_failures_change_nothing_witness :
  exec (say 1 [("action", JStr "add"); ("url", JStr "u"); ("video_id", JStr "zzz")])
    playing_world
  = with_outbox playing_world
      [(1%nat, EvError "InvalidVideoError"
                 "The video ID provided was not a valid video.")].
Proof.
  destruct (add_failures_change_nothing 1
              (dict_of [("action", JStr "add"); ("url", JStr "u");
                        ("video_id", JStr "zzz")])
              playing_world eq_refl) as (_ & _ & _ & H & _).
  apply (H (JStr "zzz")); [eexists; reflexivity|reflexivity|reflexivity].
Defined.

(** X13. The length of a song found by a search is read off its duration
    from the right: seconds, then minutes, then hours.  A duration of one or
    two fields is seconds, or minutes and seconds; any field to the left of
    the hours is ignored. *)
Theorem duration_is_read_from_the_right (song : SearchSong) :
  (forall s, ss_duration song = [s] ->
     item_length (metadata_of_search song) = s)
  /\ (forall m s, ss_duration song = [m; s] ->
     item_length (metadata_of_search song) = 60 * m + s)
  /\ (forall left h m s, ss_duration song = left ++ [h; m; s] ->
     item_length (metadata_of_search song) = 3600 * h + 60 * m + s)
  /\ (ss_duration song = [] -> item_length (metadata_of_search song) = 0).
Proof.
  unfold metadata_of_search. cbn [item_length]. repeat split.
  - intros s ->. cbn. lia.
  - intros m s ->. cbn. lia.
  - intros left h m s ->. rewrite rev_app_distr. cbn. lia.
  - intros ->. reflexivity.
Qed.

Lemma duration_is_read_from_the_right_witness :
  item_length (metadata_of_search sample_song) = 200.
Proof.
  destruct (duration_is_read_from_the_right sample_song) as (_ & H & _).
  rewrite (H 3 20 eq_refl). reflexivity.
Defined.

(** ** Jumping and removing, again *)

Lemma handle_jump ws data w :
  data !! "action" = Some (JStr "jump") ->
  handle_message ws (Decoded data) w
  = catch (action_jump (Some ws) data)
      (fun x => match x with
                | KeyError | AssertionError =>
                    send (Some ws) (error_event "RequestError" "Malformed request.")
                | _ => send (Some ws)
                         (error_event "Error" "An unexpected error occurred.")
                end) w.
Proof. intros Ha. unfold handle_message. rewrite Ha. reflexivity. Qed.

(** X14. A jump request with no index, with an index that is not an
    integer (a boolean or a fraction, say), or with a time that is not an
    integer, is refused before the room is looked at: nothing changes and
    the sender alone is sent RequestError, "Malformed request.". *)
Theorem malformed_jump_changes_nothing (ws : conn) (data : gmap string json)
    (w : World) :
  data !! "action" = Some (JStr "jump") ->
  data !! "index" = None
  \/ (exists v, data !! "index" = Some v /\ is_int v = false)
  \/ (exists v, data !! "time" = Some v /\ is_int v = false
                /\ is_Some (data !! "index")) ->
  exec (handle_message ws (Decoded data)) w
  = with_outbox w (outbox w ++ [(ws, EvError "RequestError" "Malformed request.")]).
Proof.
  intros Ha Hbad. unfold exec. rewrite (handle_jump ws data w Ha).
  unfold catch, action_jump, subscript, has_key, bind.
  destruct Hbad as [-> | [(v & -> & Hv) | (v & -> & Hv & [i ->])]].
  - reflexivity.
  - destruct v; try discriminate Hv; reflexivity.
  - destruct i; destruct v; try discriminate Hv; reflexivity.
Qed.

Lemma malformed_jump_changes_nothing_witness :
  exec (say 2 [("action", JStr "jump"); ("index", JBool true)]) playing_world
  = with_outbox playing_world
      [(2%nat, EvError "RequestError" "Malformed request.")].
Proof.
  apply (malformed_jump_changes_nothing 2
           (dict_of [("action", JStr "jump"); ("index", JBool true)])
           playing_world eq_refl).
  right. left. exists (JBool true). split; reflexivity.
Defined.

(** X15. Jumps add up. Two jump requests in a row, each with a target
    inside the queue whose item has a non-negative length, leave the queue
    index at the sum of the two offsets from where it was, the length that
    of the item there, the room playing and every vote cleared. *)
Theorem jumps_add_up (ws ws' : conn) (i j : Z) (first second : QueueItem)
    (w : World) :
  let k := queue_index (media_state (guild w)) in
  0 <= k + i -> queue (guild w) !! Z.to_nat (k + i) = Some first ->
  0 <= item_length first ->
  0 <= k + i + j -> queue (guild w) !! Z.to_nat (k + i + j) = Some second ->
  0 <= item_length second ->
  let w' := exec (action_jump (Some ws) {[ "index" := JInt i ]} ;;
                  action_jump (Some ws') {[ "index" := JInt j ]}) w in
  queue_index (media_state (guild w')) = k + i + j
  /\ ms_length (media_state (guild w')) = item_length second
  /\ playing (media_state (guild w')) = true
  /\ queue (guild w') = queue (guild w)
  /\ Forall (fun ku => finished (snd ku) = false) (users (guild w')).
Proof.
  intros k Hi Hfirst Hlen1 Hj Hsecond Hlen2 w'.
  assert (H1 : action_jump (Some ws) {[ "index" := JInt i ]} w
               = (Done tt, jumped w 0 (k + i) first)).
  { apply (action_jump_success _ _ i 0); try reflexivity; try assumption. lia. }
  destruct (jumped_guild w 0 (k + i) first) as (Hu1 & Hq1 & Hqi1 & _).
  assert (H2 : action_jump (Some ws') {[ "index" := JInt j ]} (jumped w 0 (k + i) first)
               = (Done tt, jumped (jumped w 0 (k + i) first) 0 (k + i + j) second)).
  { pose proof (action_jump_success (Some ws') {[ "index" := JInt j ]} j 0
                  (jumped w 0 (k + i) first) second eq_refl eq_refl) as H.
    cbn zeta in H. rewrite Hqi1, Hq1 in H. apply H; [exact Hj|exact Hsecond|lia]. }
  assert (Hw' : w' = jumped (jumped w 0 (k + i) first) 0 (k + i + j) second)
    by (unfold w', exec, bind; rewrite H1, H2; reflexivity).
  destruct (jumped_guild (jumped w 0 (k + i) first) 0 (k + i + j) second)
    as (Hu2 & Hq2 & Hqi2 & Hp2 & Hl2 & _).
  rewrite Hw'. repeat split; try assumption.
  - rewrite Hq2. exact Hq1.
  - rewrite Hu2. apply clear_finished_Forall.
Qed.

Lemma jumps_add_up_witness :
  queue_index
    (media_state
       (guild (exec (action_jump (Some 1%nat) {[ "index" := JInt 1 ]} ;;
                     action_jump (Some 2%nat) {[ "index" := JInt (-1) ]})
                 playing_world))) = 0.
Proof.
  assert (H0 : 0 <= 0) by lia.
  assert (H1 : 0 <= 1) by lia.
  assert (Ha : 0 <= item_length (track "a" 200)) by (cbn; lia).
  assert (Hb : 0 <= item_length (track "b" 100)) by (cbn; lia).
  exact (proj1 (jumps_add_up 1 2 1 (-1) (track "b" 100) (track "a" 200)
                  playing_world H1 eq_refl Hb H0 eq_refl Ha)).
Defined.

(** X16. A remove request with an index from 1 to the last index deletes
    the item there: the items before it stay where they are, the items
    after it move up by one, the media state is left as it was (the queue
    index is not adjusted), and every member is sent the new queue. *)
Theorem remove_in_range (ws : conn) (data : gmap string json) (i : Z) (w : World) :
  data !! "action" = Some (JStr "remove") ->
  data !! "index" = Some (JInt i) ->
  1 <= i < Z.of_nat (length (queue (guild w))) ->
  let w' := exec (handle_message ws (Decoded data)) w in
  (forall j, (j < Z.to_nat i)%nat -> queue (guild w') !! j = queue (guild w) !! j)
  /\ (forall j, (Z.to_nat i <= j)%nat ->
        queue (guild w') !! j = queue (guild w) !! S j)
  /\ S (length (queue (guild w'))) = length (queue (guild w))
  /\ media_state (guild w') = media_state (guild w)
  /\ users (guild w') = users (guild w)
  /\ sent (handle_message ws (Decoded data)) w
     = broadcast (guild w') (EvQueue (queue (guild w'))).
Proof.
  intros Ha Hidx Hi w'.
  assert (Hrun : handle_message ws (Decoded data) w
                 = (Done tt, removed w (Z.to_nat i))).
  { rewrite (handle_remove_run ws data i w Ha Hidx).
    destruct (i =? 0) eqn:E; [apply Z.eqb_eq in E; lia|].
    rewrite action_remove_run, E. unfold py_index.
    destruct (0 <=? i) eqn:E0; [|apply Z.leb_gt in E0; lia].
    destruct (i <? Z.of_nat (length (queue (guild w)))) eqn:E1;
      [reflexivity|apply Z.ltb_ge in E1; lia]. }
  unfold w', exec. rewrite Hrun. cbn [snd removed guild set_queue queue
                                      media_state users].
  repeat split.
  - intros j Hj. apply list_lookup_delete_lt. exact Hj.
  - intros j Hj. apply list_lookup_delete_ge. exact Hj.
  - rewrite length_delete; [lia|]. apply lookup_lt_is_Some_2. lia.
  - apply sent_appended. unfold exec. rewrite Hrun. reflexivity.
Qed.

Lemma remove_in_range_witness :
  queue (guild (exec (say 1 [("action", JStr "remove"); ("index", JInt 1)])
                  playing_world)) !! 0%nat
  = Some (track "a" 200).
Proof.
  destruct (remove_in_range 1
              (dict_of [("action", JStr "remove"); ("index", JInt 1)]) 1
              playing_world eq_refl eq_refl) as (H & _).
  - cbn. lia.
  - etransitivity; [apply (H 0%nat); cbn; lia|reflexivity].
Defined.

(** X17. A remove request with no index, or with an index that is not an
    integer, changes nothing and earns the sender alone RequestError,
    "Malformed request.". *)
Theorem malformed_remove_changes_nothing (ws : conn) (data : gmap string json)
    (w : World) :
  data !! "action" = Some (JStr "remove") ->
  data !! "index" = None
  \/ (exists v, data !! "index" = Some v /\ is_int v = false) ->
  exec (handle_message ws (Decoded data)) w
  = with_outbox w (outbox w ++ [(ws, EvError "RequestError" "Malformed request.")]).
Proof.
  intros Ha Hbad. unfold exec, handle_message. rewrite Ha.
  change (dispatch ws (JStr "remove") data)
    with (let* index := subscript data "index" in action_remove ws index).
  unfold catch, subscript, bind.
  destruct Hbad as [-> | (v & -> & Hv)]; [reflexivity|].
  destruct v; try discriminate Hv; reflexivity.
Qed.

Lemma malformed_remove_changes_nothing_witness :
  exec (say 2 [("action", JStr "remove"); ("index", JStr "1")]) playing_world
  = with_outbox playing_world
      [(2%nat, EvError "RequestError" "Malformed request.")].
Proof.
  apply (malformed_remove_changes_nothing 2
           (dict_of [("action", JStr "remove"); ("index", JStr "1")])
           playing_world eq_refl).
  right. exists (JStr "1"). split; reflexivity.
Defined.

(** ** The registry *)

Lemma on_guild_objects {A} r (c : M A) s r' :
  objects (snd (on_guild r c s)) r'
  = if Nat.eqb r' r then guild (exec c (world_of s r)) else objects s r'.
Proof. reflexivity. Qed.

Lemma on_guild_same {A} r (c : M A) s :
  objects (snd (on_guild r c s)) r = guild (exec c (world_of s r)).
Proof. rewrite on_guild_objects, Nat.eqb_refl. reflexivity. Qed.

Lemma on_guild_other {A} r (c : M A) s r' :
  r' <> r -> objects (snd (on_guild r c s)) r' = objects s r'.
Proof.
  intros Hne. rewrite on_guild_objects.
  destruct (Nat.eqb r' r) eqn:E; [apply Nat.eqb_eq in E; contradiction|reflexivity].
Qed.

Lemma substring_whole s : String.substring 0 (String.length s) s = s.
Proof. induction s as [|c s IH]; cbn; [reflexivity|]. rewrite IH. reflexivity. Qed.

(** A string is what comes before a substring of full length, the
    substring, and what comes after. *)
Lemma substring_nothing s : String.substring 0 0 s = ""%string.
Proof. destruct s; reflexivity. Qed.

Lemma append_cons c a b : (String c a ++ b)%string = String c (a ++ b)%string.
Proof. reflexivity. Qed.

Lemma substring_splits s :
  forall p m,
    String.length (String.substring p m s) = m ->
    s = (String.substring 0 p s ++ String.substring p m s
         ++ String.substring (p + m) (String.length s - (p + m)) s)%string.
Proof.
  induction s as [|c s IH]; intros p m Hlen.
  - destruct p, m; cbn in *; try reflexivity; discriminate Hlen.
  - destruct p as [|p].
    + destruct m as [|m].
      * cbn [String.substring Nat.add Nat.sub String.length].
        change (String.substring 0 (S (String.length s)) (String c s))
          with (String c (String.substring 0 (String.length s) s)).
        rewrite substring_whole. reflexivity.
      * cbn [String.substring String.length Nat.add Nat.sub] in Hlen |- *.
        injection Hlen as Hlen.
        change (String c s
                = String c (String.substring 0 m s
                            ++ String.substring m (String.length s - m) s)%string).
        f_equal. pose proof (IH 0%nat m Hlen) as H.
        rewrite substring_nothing in H. exact H.
    + cbn [String.substring String.length Nat.add Nat.sub] in Hlen |- *.
      rewrite append_cons. f_equal. apply IH. exact Hlen.
Qed.

Lemma str_find_found path p :
  String.index 0 "?guild=" path = Some p ->
  (str_find "?guild=" path + Z.of_nat (String.length "?guild=")
     <? Z.of_nat (String.length "?guild=")) = false
  /\ str_from path (str_find "?guild=" path + Z.of_nat (String.length "?guild="))
     = rest_from (p + 7) path.
Proof.
  intros H. unfold str_find, str_from, rest_from. rewrite H. cbn [String.length].
  split; [apply Z.ltb_ge; lia|].
  destruct (Z.of_nat p + Z.of_nat 7 <? 0) eqn:E; [apply Z.ltb_lt in E; lia|].
  replace (Z.to_nat (Z.of_nat p + Z.of_nat 7)) with (p + 7)%nat by lia.
  reflexivity.
Qed.

Lemma counter_open_refused ws path s :
  String.index 0 "?guild=" path = None ->
  counter_open ws path s
  = (Refused,
     {| objects := objects s; allocated := allocated s; guilds := guilds s;
        s_env := s_env s; s_ticks := s_ticks s;
        s_outbox := s_outbox s
                    ++ [(ws, EvError "GuildError" "Guild not specified in path.")] |}).
Proof.
  intros H. unfold counter_open, str_find. rewrite H. reflexivity.
Qed.

Lemma counter_open_joined ws path p s :
  String.index 0 "?guild=" path = Some p ->
  counter_open ws path s
  = let room := rest_from (p + 7) path in
    let '(r, s1) := match guilds s !! room with
                    | Some r => (r, s)
                    | None => new_guild room s
                    end in
    (Joined r room, snd (on_guild r (register ws) s1)).
Proof.
  intros H. destruct (str_find_found path p H) as [Hlt Hrest].
  unfold counter_open. rewrite Hlt, Hrest. reflexivity.
Qed.

(** X18. A path without "?guild=" gets the connection a GuildError event
    and nothing else: no room is made or joined, none of its messages is
    read, and there is nothing to undo when it closes. *)
Theorem no_room_in_path (ws : conn) (path : string) (msgs : list message)
    (s : Server) :
  String.index 0 "?guild=" path = None ->
  fst (counter_open ws path s) = Refused
  /\ counter ws path msgs s = (Done tt, snd (counter_open ws path s))
  /\ guilds (snd (counter_open ws path s)) = guilds s
  /\ allocated (snd (counter_open ws path s)) = allocated s
  /\ (forall r, objects (snd (counter_open ws path s)) r = objects s r)
  /\ s_ticks (snd (counter_open ws path s)) = s_ticks s
  /\ s_outbox (snd (counter_open ws path s))
     = s_outbox s ++ [(ws, EvError "GuildError" "Guild not specified in path.")].
Proof.
  intros H. unfold counter. rewrite (counter_open_refused ws path s H).
  repeat split.
Qed.

Lemma no_room_in_path_witness :
  s_outbox (snd (counter 1 "/room/abc" [Undecodable] (empty_server (sample_env every_ms))))
  = [(1%nat, EvError "GuildError" "Guild not specified in path.")].
Proof.
  destruct (no_room_in_path 1 "/room/abc" [Undecodable]
              (empty_server (sample_env every_ms)) eq_refl)
    as (_ & Hc & _ & _ & _ & _ & Hout).
  rewrite Hc. exact Hout.
Defined.

(** X19. The room a connection joins is named by everything that follows
    the first "?guild=" of its path: the path is what precedes that marker,
    the marker, and the room name, which may be empty and may itself
    contain the marker or further parameters. *)
Theorem room_is_the_rest_of_the_path (ws : conn) (path : string) (p : nat)
    (s : Server) :
  String.index 0 "?guild=" path = Some p ->
  let room := rest_from (p + 7) path in
  (exists r, fst (counter_open ws path s) = Joined r room)
  /\ path = (String.substring 0 p path ++ "?guild=" ++ room)%string
  /\ (forall q, (q < p)%nat -> String.substring q 7 path <> "?guild=").
Proof.
  intros H room. split; [|split].
  - rewrite (counter_open_joined ws path p s H). cbn zeta. fold room.
    destruct (guilds s !! room); [eexists; reflexivity|].
    destruct (new_guild room s) as [r s1]. eexists. reflexivity.
  - pose proof (String.index_correct1 _ _ _ _ H) as Hsub. cbn [String.length] in Hsub.
    pose proof (substring_splits path p 7) as Hsplit.
    rewrite Hsub in Hsplit. apply Hsplit. reflexivity.
  - intros q Hq. apply (String.index_correct2 _ _ _ _ H); [lia|exact Hq].
Qed.

Lemma room_is_the_rest_of_the_path_witness :
  exists r,
    fst (counter_open 1 "/?guild=abc&x=?guild=1" (empty_server (sample_env every_ms)))
    = Joined r "abc&x=?guild=1".
Proof.
  destruct (room_is_the_rest_of_the_path 1 "/?guild=abc&x=?guild=1" 1
              (empty_server (sample_env every_ms)) eq_refl) as ((r & Hr) & _).
  exists r. rewrite Hr. reflexivity.
Defined.

Lemma counter_open_room ws path room s :
  room_of_path path = Some room ->
  counter_open ws path s
  = let '(r, s1) := match guilds s !! room with
                    | Some r => (r, s)
                    | None => new_guild room s
                    end in
    (Joined r room, snd (on_guild r (register ws) s1)).
Proof.
  unfold room_of_path. destruct (String.index 0 "?guild=" path) as [p|] eqn:H;
    [|discriminate]. intros [= <-]. apply counter_open_joined. exact H.
Qed.

Lemma register_guild_id ws w :
  guild_id (guild (exec (register ws) w)) = guild_id (guild w).
Proof.
  unfold exec at 1. rewrite register_run. cbn [snd guild with_outbox].
  unfold exec. rewrite update_media_state_time_run.
  destruct (advancing _); reflexivity.
Qed.

(** A join of a room just made. *)
Lemma register_first ws id t e tk ob :
  exec (register ws) {| guild := Guild_init id t; env := e; ticks := tk; outbox := ob |}
  = {| guild := set_last_update_time (wall e tk)
                  (set_was_paused true
                     (set_users [(ws, newcomer ws)] (Guild_init id t)));
       env := e; ticks := S tk;
       outbox := ob ++ [(ws, EvUsers 1 [newcomer ws]); (ws, EvQueue []);
                        (ws, EvState {| current_time := 0; ms_length := 0;
                                        playing := false; queue_index := -1 |})] |}.
Proof.
  unfold exec. rewrite register_run. cbn zeta. cbn [snd].
  unfold exec. rewrite update_media_state_time_run. unfold advancing. cbn.
  rewrite <- app_assoc. reflexivity.
Qed.

(** X20. The first connection to a room name makes the room: a new object
    is registered under the name, with the connection as its only member,
    an empty queue and nothing playing, and the connection is sent the
    member list, the empty queue and that state; no other room is touched.
    A connection to a name that is registered joins the object registered
    there, and the registry stays as it is. *)
Theorem opening_a_room (ws : conn) (path room : string) (s : Server) :
  room_of_path path = Some room ->
  let s' := snd (counter_open ws path s) in
  (guilds s !! room = None ->
     let r := allocated s in
     fst (counter_open ws path s) = Joined r room
     /\ guilds s' = <[room := r]> (guilds s)
     /\ allocated s' = S (allocated s)
     /\ users (objects s' r) = [(ws, newcomer ws)]
     /\ queue (objects s' r) = []
     /\ media_state (objects s' r)
        = {| current_time := 0; ms_length := 0; playing := false; queue_index := -1 |}
     /\ guild_id (objects s' r) = room
     /\ (forall r', r' <> r -> objects s' r' = objects s r')
     /\ s_outbox s'
        = s_outbox s
          ++ [(ws, EvUsers 1 [newcomer ws]); (ws, EvQueue []);
              (ws, EvState {| current_time := 0; ms_length := 0;
                              playing := false; queue_index := -1 |})])
  /\ (forall r,
        guilds s !! room = Some r ->
        fst (counter_open ws path s) = Joined r room
        /\ guilds s' = guilds s
        /\ allocated s' = allocated s
        /\ objects s' r = guild (exec (register ws) (world_of s r))
        /\ (forall r', r' <> r -> objects s' r' = objects s r')).
Proof.
  intros Hroom s'. subst s'. rewrite (counter_open_room ws path room s Hroom).
  split.
  - intros Hnone. rewrite Hnone. cbn zeta. unfold new_guild.
    cbn [fst snd].
    assert (Hobj : forall r',
      objects (snd (on_guild (allocated s) (register ws)
        {| objects := fun r' =>
             if Nat.eqb r' (allocated s)
             then Guild_init room (wall (s_env s) (s_ticks s))
             else objects s r';
           allocated := S (allocated s);
           guilds := <[room := allocated s]> (guilds s);
           s_env := s_env s; s_ticks := S (s_ticks s);
           s_outbox := s_outbox s |})) r'
      = if Nat.eqb r' (allocated s)
        then set_last_update_time (wall (s_env s) (S (s_ticks s)))
               (set_was_paused true
                  (set_users [(ws, newcomer ws)]
                     (Guild_init room (wall (s_env s) (s_ticks s)))))
        else objects s r').
    { intros r'. rewrite on_guild_objects. unfold world_of.
      cbn [objects s_env s_ticks s_outbox]. rewrite Nat.eqb_refl.
      rewrite register_first. cbn [guild].
      destruct (Nat.eqb r' (allocated s)); reflexivity. }
    repeat split.
    + rewrite Hobj, Nat.eqb_refl. reflexivity.
    + rewrite Hobj, Nat.eqb_refl. reflexivity.
    + rewrite Hobj, Nat.eqb_refl. reflexivity.
    + rewrite Hobj, Nat.eqb_refl. reflexivity.
    + intros r' Hne. rewrite Hobj.
      destruct (Nat.eqb r' (allocated s)) eqn:E;
        [apply Nat.eqb_eq in E; contradiction|reflexivity].
    + unfold on_guild. cbn [snd s_outbox objects s_env s_ticks].
      rewrite Nat.eqb_refl.
      change (snd (register ws ?w)) with (exec (register ws) w).
      rewrite register_first. reflexivity.
  - intros r Hsome. rewrite Hsome. cbn zeta. cbn [fst snd].
    repeat split.
    + apply on_guild_same.
    + intros r' Hne. apply on_guild_other. exact Hne.
Qed.

Lemma opening_a_room_witness :
  fst (counter_open 1 "/?guild=abc" (empty_server (sample_env every_ms)))
  = Joined 0 "abc".
Proof.
  destruct (opening_a_room 1 "/?guild=abc" "abc"
              (empty_server (sample_env every_ms)) eq_refl) as [H _].
  destruct (H eq_refl) as [Hj _]. exact Hj.
Defined.

Lemma loop_keeps_the_room ws r msgs :
  forall s,
    let s' := snd (counter_loop ws r msgs s) in
    guilds s' = guilds s
    /\ allocated s' = allocated s
    /\ members (objects s' r) = members (objects s r)
    /\ guild_id (objects s' r) = guild_id (objects s r)
    /\ (forall r', r' <> r -> objects s' r' = objects s r').
Proof.
  induction msgs as [|msg msgs IH]; intros s; cbn [counter_loop].
  - repeat split.
  - destruct (handle_message_same_members ws msg (world_of s r)) as [Hm' Hid'].
    assert (Hstep : let s1 := snd (on_guild r (handle_message ws msg) s) in
              guilds s1 = guilds s /\ allocated s1 = allocated s
              /\ members (objects s1 r) = members (objects s r)
              /\ guild_id (objects s1 r) = guild_id (objects s r)
              /\ (forall r', r' <> r -> objects s1 r' = objects s r')).
    { cbn zeta. rewrite on_guild_same. repeat split; try assumption.
      intros r' Hne. apply on_guild_other. exact Hne. }
    cbn zeta in Hstep.
    destruct (on_guild r (handle_message ws msg) s) as [[[]|e] s1] eqn:E;
      cbn [snd] in Hstep.
    + destruct (IH s1) as (Hg & Ha & Hm & Hid & Ho).
      destruct Hstep as (Hg1 & Ha1 & Hm1 & Hid1 & Ho1).
      cbn zeta. rewrite Hg, Ha, Hm, Hid.
      repeat split; try assumption.
      intros r' Hne. rewrite Ho by exact Hne. apply Ho1. exact Hne.
    + exact Hstep.
Qed.

Lemma loop_outcome ws r msgs :
  forall s,
    fst (counter_loop ws r msgs s)
    = match first_frame_error msgs with
      | None => Done tt
      | Some e => Raised e
      end.
Proof.
  induction msgs as [|msg msgs IH]; intros s; cbn [counter_loop first_frame_error];
    [reflexivity|].
  destruct (turn_outcome ws msg (world_of s r)) as [Hok Hbad].
  unfold on_guild. fold (world_of s r).
  destruct (frame_error msg) as [e|].
  - rewrite (Hbad e eq_refl). reflexivity.
  - specialize (Hok eq_refl). unfold result in Hok.
    destruct (handle_message ws msg (world_of s r)) as [o w1]. cbn in Hok.
    subst o. cbn [fst]. apply IH.
Qed.

Lemma members_nil g : members g = [] <-> users g = [].
Proof.
  unfold members. split; [apply map_eq_nil|intros ->; reflexivity].
Qed.

(** X21. A connection that opens a room nobody is in, sends whatever frames
    it sends and closes, with no other connection acting in between, leaves
    the registry as it found it: the room is registered while the
    connection lasts and dropped when it ends, and the finally block raises
    nothing.  The handler ends normally when every frame was an object or a
    JSONDecodeError, and otherwise with the exception of the first frame
    that was neither. *)
Theorem alone_in_a_room (ws : conn) (path room : string) (msgs : list message)
    (s : Server) :
  room_of_path path = Some room ->
  guilds s !! room = None ->
  fst (counter ws path msgs s)
  = match first_frame_error msgs with
    | None => Done tt
    | Some e => Raised e
    end
  /\ guilds (snd (counter_open ws path s)) !! room = Some (allocated s)
  /\ guilds (snd (counter ws path msgs s)) = guilds s
  /\ users (objects (snd (counter ws path msgs s)) (allocated s)) = [].
Proof.
  intros Hroom Hnone. unfold counter.
  rewrite (counter_open_room ws path room s Hroom), Hnone. cbn zeta.
  unfold new_guild.
  set (s1 := snd (on_guild (allocated s) (register ws) _)).
  assert (Hu1 : users (objects s1 (allocated s)) = [(ws, newcomer ws)]).
  { unfold s1. rewrite on_guild_same, register_users. cbn.
    rewrite Nat.eqb_refl. reflexivity. }
  assert (Hg1 : guilds s1 = <[room := allocated s]> (guilds s)) by reflexivity.
  clearbody s1.
  destruct (loop_keeps_the_room ws (allocated s) msgs s1) as (Hg & _ & Hm & _).
  pose proof (loop_outcome ws (allocated s) msgs s1) as Hout.
  destruct (counter_loop ws (allocated s) msgs s1) as [looped s2].
  cbn [fst snd] in *.
  assert (Hu2 : exists u, users (objects s2 (allocated s)) = [(ws, u)]).
  { unfold members in Hm. rewrite Hu1 in Hm. cbn in Hm.
    destruct (users (objects s2 (allocated s))) as [|[k u] [|x rest]];
      try discriminate Hm. injection Hm as ->. eexists. reflexivity. }
  destruct Hu2 as [u Hu2].
  assert (Hclose : counter_close ws (allocated s) room s2
    = (Done tt,
       {| objects := objects (snd (on_guild (allocated s) (unregister ws) s2));
          allocated := allocated s2;
          guilds := delete room (guilds s2);
          s_env := s_env s2; s_ticks := s_ticks s2;
          s_outbox := s_outbox (snd (on_guild (allocated s) (unregister ws) s2)) |})).
  { unfold counter_close, counter_close_begin, counter_close_finish.
    rewrite on_guild_same.
    unfold exec, world_of. rewrite unregister_run. cbn [snd guild set_users users].
    rewrite Hu2. cbn [dict_pop]. rewrite Nat.eqb_refl.
    cbn [guilds on_guild snd]. rewrite Hg, Hg1, lookup_insert_eq. reflexivity. }
  rewrite Hclose. cbn [fst snd guilds objects].
  split; [exact Hout|]. split; [rewrite Hg1; apply lookup_insert_eq|].
  split; [rewrite Hg, Hg1; apply delete_insert_id; exact Hnone|].
  rewrite on_guild_same. unfold exec, world_of. rewrite unregister_run.
  cbn [snd guild set_users users]. rewrite Hu2. cbn [dict_pop].
  rewrite Nat.eqb_refl. reflexivity.
Qed.

Lemma alone_in_a_room_witness :
  counter 1 "/?guild=abc"
    [request [("action", JStr "add"); ("query", JStr "x")]; NotAnObject; Undecodable]
    (empty_server (sample_env every_ms))
  = (Raised TypeError,
     snd (counter 1 "/?guild=abc"
            [request [("action", JStr "add"); ("query", JStr "x")]; NotAnObject;
             Undecodable]
            (empty_server (sample_env every_ms))))
  /\ guilds (snd (counter 1 "/?guild=abc"
                    [request [("action", JStr "add"); ("query", JStr "x")];
                     NotAnObject; Undecodable]
                    (empty_server (sample_env every_ms))))
     = ∅.
Proof.
  destruct (alone_in_a_room 1 "/?guild=abc" "abc"
              [request [("action", JStr "add"); ("query", JStr "x")]; NotAnObject;
               Undecodable]
              (empty_server (sample_env every_ms)) eq_refl eq_refl)
    as (Hres & _ & H & _).
  split; [|exact H].
  destruct (counter 1 "/?guild=abc" _ _) as [o s']. cbn in Hres. rewrite Hres.
  reflexivity.
Defined.

Lemma dict_set_not_nil {V} k (v : V) d : dict_set k v d <> [].
Proof. destruct d as [|[k' v'] d]; cbn; [|destruct (Nat.eqb k k')]; discriminate. Qed.

Lemma dict_get_member {V} k (d : list (conn * V)) :
  In k (map fst d) -> d <> [].
Proof. destruct d; [intros []|discriminate]. Qed.

(** A join of [r] sets the registry right even when [r] had no member. *)
Lemma registry_ok_after_join ws r s :
  (forall room r',
     guilds s !! room = Some r' ->
     (r' < allocated s)%nat
     /\ (r' <> r -> users (objects s r') <> [])
     /\ guild_id (objects s r') = room) ->
  (forall r',
     r' <> r -> users (objects s r') <> [] ->
     (r' < allocated s)%nat /\ guilds s !! guild_id (objects s r') = Some r') ->
  guilds s !! guild_id (objects s r) = Some r ->
  (r < allocated s)%nat ->
  registry_ok (snd (on_guild r (register ws) s)).
Proof.
  intros Hreg Hlive Hr Hlt.
  assert (Hid : guild_id (objects (snd (on_guild r (register ws) s)) r)
                = guild_id (objects s r))
    by (rewrite on_guild_same; apply register_guild_id).
  assert (Hne : users (objects (snd (on_guild r (register ws) s)) r) <> [])
    by (rewrite on_guild_same, register_users; apply dict_set_not_nil).
  split.
  - intros room r' Hlook. cbn [guilds on_guild snd] in Hlook.
    destruct (Hreg room r' Hlook) as (Ha & Hu & Hn).
    destruct (Nat.eq_dec r' r) as [->|Hneq].
    + split; [exact Ha|]. split; [exact Hne|]. rewrite Hid. exact Hn.
    + rewrite on_guild_other by exact Hneq. repeat split; auto.
  - intros r' Hu. destruct (Nat.eq_dec r' r) as [->|Hneq].
    + split; [exact Hlt|]. rewrite Hid. exact Hr.
    + rewrite on_guild_other in Hu |- * by exact Hneq. apply Hlive; assumption.
Qed.

Lemma registry_ok_empty e : registry_ok (empty_server e).
Proof.
  split.
  - intros room r Hlook. cbn in Hlook. rewrite lookup_empty in Hlook.
    discriminate Hlook.
  - intros r Hu. cbn in Hu. contradiction Hu. reflexivity.
Qed.

Lemma dict_pop_only {V} k (d : list (conn * V)) :
  (forall k', In k' (map fst d) -> k' = k) -> dict_pop k d = [].
Proof.
  induction d as [|[k0 v0] d IH]; intros H; cbn; [reflexivity|].
  rewrite (H k0) by (left; reflexivity). rewrite Nat.eqb_refl.
  apply IH. intros k' Hin. apply H. right. exact Hin.
Qed.

Lemma dict_pop_keeps_others {V} k k' (d : list (conn * V)) :
  In k' (map fst d) -> k' <> k -> dict_pop k d <> [].
Proof.
  induction d as [|[k0 v0] d IH]; intros Hin Hne; [destruct Hin|].
  cbn. destruct (Nat.eqb k k0) eqn:E; [|discriminate].
  apply Nat.eqb_eq in E. subst k0. destruct Hin as [Heq|Hin].
  - cbn in Heq. congruence.
  - apply IH; assumption.
Qed.

(** The [finally] block up to its first suspension, by who is left *)
Lemma counter_close_begin_cases ws r room s :
  let s1 := snd (on_guild r (unregister ws) s) in
  users (objects s1 r) = dict_pop ws (users (objects s r))
  /\ counter_close_begin ws r room s
     = match dict_pop ws (users (objects s r)) with
       | [] =>
           match guilds s !! room with
           | Some _ =>
               (Done Closed,
                {| objects := objects s1; allocated := allocated s;
                   guilds := delete room (guilds s);
                   s_env := s_env s1; s_ticks := s_ticks s1;
                   s_outbox := s_outbox s1 |})
           | None => (Raised KeyError, s1)
           end
       | _ :: _ => (Done Waiting, s1)
       end.
Proof.
  intros s1.
  assert (Hu : users (objects s1 r) = dict_pop ws (users (objects s r)))
    by (unfold s1; rewrite on_guild_same; reflexivity).
  split; [exact Hu|].
  unfold counter_close_begin, counter_close_finish. fold s1.
  assert (Hg : guilds s1 = guilds s) by reflexivity.
  assert (Ha : allocated s1 = allocated s) by reflexivity.
  clearbody s1. rewrite Hu.
  destruct (dict_pop ws (users (objects s r))) as [|x rest]; [|reflexivity].
  rewrite Hg, Ha. destruct (guilds s !! room); reflexivity.
Qed.

(** X22. The registry and the rooms stay in step. If every registered room
    has a member and is registered under its own name, and every room with
    a member is the one registered under its name, then the same holds
    after a connection opens (whatever its path), after any turn and any
    run of turns of a connection's loop, and after the part of a member's
    close that runs before other connections can: the member is taken out
    and, if that empties the room, the name is dropped at once, which finds
    its key.  A close that had to wait ends with a test on the room as it is
    by then: it changes nothing when the room still has a member; it raises
    KeyError, changing nothing, when the room is empty and its name is
    registered no more; and when the room is empty and its name is
    registered again, it drops that registration, which belongs to another
    room, and the two are out of step.  A server nobody has connected to is
    in step. *)
Theorem registry_stays_in_step (s : Server) :
  registry_ok s ->
  (forall e, registry_ok (empty_server e))
  /\ (forall ws path, registry_ok (snd (counter_open ws path s)))
  /\ (forall ws r msg, registry_ok (counter_turn ws r msg s))
  /\ (forall ws r msgs, registry_ok (snd (counter_loop ws r msgs s)))
  /\ (forall ws r,
        In ws (members (objects s r)) ->
        let begun := counter_close_begin ws r (guild_id (objects s r)) s in
        registry_ok (snd begun)
        /\ (fst begun = Done Closed /\ users (objects (snd begun) r) = []
            \/ fst begun = Done Waiting /\ users (objects (snd begun) r) <> []))
  /\ (forall r room,
        (users (objects s r) <> [] ->
         counter_close_finish r room s = (Done tt, s))
        /\ (users (objects s r) = [] -> guilds s !! room = None ->
            counter_close_finish r room s = (Raised KeyError, s))
        /\ (users (objects s r) = [] -> is_Some (guilds s !! room) ->
            fst (counter_close_finish r room s) = Done tt
            /\ guilds (snd (counter_close_finish r room s))
               = delete room (guilds s)
            /\ ~ registry_ok (snd (counter_close_finish r room s)))).
Proof.
  intros Hok. pose proof Hok as [Hreg Hlive].
  assert (Hturn : forall s0, registry_ok s0 ->
            forall ws r msg, registry_ok (counter_turn ws r msg s0)).
  { clear s Hok Hreg Hlive. intros s [Hreg Hlive] ws r msg. unfold counter_turn.
    destruct (handle_message_same_members ws msg (world_of s r)) as [Hm Hid].
    assert (Hu : users (objects (snd (on_guild r (handle_message ws msg) s)) r) = []
                 <-> users (objects s r) = []).
    { rewrite on_guild_same, <- !members_nil. rewrite Hm. reflexivity. }
    assert (Hid' : guild_id (objects (snd (on_guild r (handle_message ws msg) s)) r)
                   = guild_id (objects s r))
      by (rewrite on_guild_same; exact Hid).
    split.
    + intros room r' Hl. cbn [guilds on_guild snd] in Hl.
      destruct (Hreg room r' Hl) as (Ha & Hne & Hn).
      destruct (Nat.eq_dec r' r) as [->|Hneq].
      * split; [exact Ha|]. split; [rewrite Hu; exact Hne|].
        rewrite Hid'. exact Hn.
      * rewrite on_guild_other by exact Hneq. repeat split; assumption.
    + intros r' Hne. destruct (Nat.eq_dec r' r) as [->|Hneq].
      * rewrite Hu in Hne. rewrite Hid'. apply Hlive. exact Hne.
      * rewrite on_guild_other in Hne |- * by exact Hneq. apply Hlive. exact Hne. }
  split; [|split; [|split; [|split; [|split]]]].
  - apply registry_ok_empty.
  - intros ws path. unfold counter_open.
    match goal with |- context [if ?b then _ else _] => destruct b end;
      [exact Hok|].
    set (room := str_from path _).
    destruct (guilds s !! room) as [r|] eqn:Hlook.
    + destruct (Hreg room r Hlook) as (Ha & _ & Hn).
      cbn [snd]. apply registry_ok_after_join.
      * intros room' r' Hl. destruct (Hreg room' r' Hl) as (Ha' & Hu' & Hn').
        repeat split; auto.
      * intros r' _ Hu'. apply Hlive. exact Hu'.
      * rewrite Hn. exact Hlook.
      * exact Ha.
    + unfold new_guild. cbn [snd]. apply registry_ok_after_join.
      * intros room' r' Hl. cbn [guilds objects allocated] in *.
        destruct (decide (room' = room)) as [->|Hneq].
        -- rewrite lookup_insert_eq in Hl. injection Hl as <-.
           rewrite Nat.eqb_refl. split; [lia|].
           split; [intros Hn; contradiction Hn; reflexivity|reflexivity].
        -- rewrite lookup_insert_ne in Hl by congruence.
           destruct (Hreg room' r' Hl) as (Ha & Hu & Hn).
           destruct (Nat.eqb r' (allocated s)) eqn:E;
             [apply Nat.eqb_eq in E; lia|].
           split; [lia|]. split; [intros _; exact Hu|exact Hn].
      * intros r' Hneq Hu. cbn [guilds objects allocated] in *.
        destruct (Nat.eqb r' (allocated s)) eqn:E;
          [apply Nat.eqb_eq in E; contradiction|].
        destruct (Hlive r' Hu) as [Ha Hl]. split; [lia|].
        rewrite lookup_insert_ne; [exact Hl|].
        intros Heq. rewrite <- Heq in Hl. congruence.
      * cbn [guilds objects]. rewrite Nat.eqb_refl. cbn.
        apply lookup_insert_eq.
      * cbn. lia.
  - apply Hturn. exact Hok.
  - intros ws r msgs. clear Hreg Hlive. revert s Hok.
    induction msgs as [|msg msgs IH]; intros s Hok; cbn [counter_loop];
      [exact Hok|].
    pose proof (Hturn s Hok ws r msg) as Hstep. unfold counter_turn in Hstep.
    destruct (on_guild r (handle_message ws msg) s) as [[[]|e] s1];
      cbn [snd] in Hstep; [apply IH; exact Hstep|exact Hstep].
  - intros ws r Hin.
    assert (Hne : users (objects s r) <> []) by (eapply dict_get_member; exact Hin).
    destruct (Hlive r Hne) as [Ha Hl].
    set (room := guild_id (objects s r)) in *.
    destruct (counter_close_begin_cases ws r room s) as [Hu1 Hbegin].
    cbn zeta in Hu1, Hbegin |- *. rewrite Hbegin. clear Hbegin.
    set (s1 := snd (on_guild r (unregister ws) s)) in *.
    assert (Hg1 : guilds s1 = guilds s) by reflexivity.
    assert (Ha1 : allocated s1 = allocated s) by reflexivity.
    assert (Hid1 : guild_id (objects s1 r) = room)
      by (unfold s1; rewrite on_guild_same; reflexivity).
    assert (Ho1 : forall r', r' <> r -> objects s1 r' = objects s r')
      by (intros r' Hneq; apply on_guild_other; exact Hneq).
    clearbody s1. rewrite <- Hu1.
    destruct (users (objects s1 r)) as [|x rest] eqn:Hu.
    + rewrite Hl. cbn [fst snd objects]. split; [|left; split; [reflexivity|exact Hu]].
      split.
      * intros room' r' Hlook. cbn [guilds objects allocated] in *.
        destruct (decide (room' = room)) as [->|Hneq];
          [rewrite lookup_delete_eq in Hlook; discriminate|].
        rewrite lookup_delete_ne in Hlook by congruence.
        destruct (Hreg room' r' Hlook) as (Ha' & Hne' & Hn').
        assert (Hr : r' <> r).
        { intros ->. apply Hneq. symmetry. exact Hn'. }
        rewrite Ho1 by exact Hr. repeat split; assumption.
      * intros r' Hne'. cbn [guilds objects allocated] in *.
        assert (Hr : r' <> r) by (intros ->; apply Hne'; exact Hu).
        rewrite Ho1 in Hne' |- * by exact Hr.
        destruct (Hlive r' Hne') as [Ha' Hl'].
        split; [exact Ha'|].
        rewrite lookup_delete_ne; [exact Hl'|].
        intros Heq. rewrite <- Heq in Hl'.
        rewrite Hl in Hl'. injection Hl' as ->. apply Hr. reflexivity.
    + cbn [fst snd].
      split; [|right; split; [reflexivity|rewrite Hu; discriminate]].
      split.
      * intros room' r' Hlook. rewrite Hg1 in Hlook.
        destruct (Hreg room' r' Hlook) as (Ha' & Hne' & Hn').
        destruct (Nat.eq_dec r' r) as [->|Hneq].
        -- rewrite Ha1, Hu, Hid1. repeat split; [exact Ha'|discriminate|exact Hn'].
        -- rewrite Ho1 by exact Hneq. rewrite Ha1. repeat split; assumption.
      * intros r' Hne'. destruct (Nat.eq_dec r' r) as [->|Hneq].
        -- rewrite Ha1, Hg1, Hid1. split; [exact Ha|exact Hl].
        -- rewrite Ho1 in Hne' |- * by exact Hneq. rewrite Ha1, Hg1.
           apply Hlive. exact Hne'.
  - intros r room. unfold counter_close_finish.
    split; [|split].
    + intros Hne. destruct (users (objects s r)); [contradiction Hne|]; reflexivity.
    + intros -> ->. reflexivity.
    + intros -> [r' Hl]. rewrite Hl. cbn [fst snd guilds].
      split; [reflexivity|]. split; [reflexivity|].
      intros [_ Hlive']. cbn [objects guilds allocated] in Hlive'.
      destruct (Hreg room r' Hl) as (_ & Hne' & Hn').
      destruct (Hlive' r' Hne') as [_ Hl'].
      rewrite Hn', lookup_delete_eq in Hl'. discriminate Hl'.
Qed.

Lemma registry_stays_in_step_witness :
  let s := snd (counter_open 1 "/?guild=abc" (empty_server (sample_env every_ms))) in
  registry_ok s
  /\ registry_ok (snd (counter_close_begin 1 0 "abc" s))
  /\ fst (counter_close_begin 1 0 "abc" s) = Done Closed.
Proof.
  cbn zeta.
  destruct (registry_stays_in_step (empty_server (sample_env every_ms))
              (registry_ok_empty _)) as (_ & Hopen & _).
  pose proof (Hopen 1%nat "/?guild=abc") as Hok.
  split; [exact Hok|].
  destruct (registry_stays_in_step _ Hok) as (_ & _ & _ & _ & Hbegin & _).
  destruct (Hbegin 1%nat 0%nat (or_introl eq_refl)) as [H _].
  split; [exact H|reflexivity].
Defined.

Lemma dict_pop_members {V} k k' (d : list (conn * V)) :
  In k' (map fst (dict_pop k d)) -> In k' (map fst d) /\ k' <> k.
Proof.
  induction d as [|[k0 v0] d IH]; cbn; [intros []|].
  destruct (Nat.eqb k k0) eqn:E.
  - intros H. destruct (IH H) as [Hin Hne]. split; [right; exact Hin|exact Hne].
  - apply Nat.eqb_neq in E. cbn. intros [<-|H].
    + split; [left; reflexivity|congruence].
    + destruct (IH H) as [Hin Hne]. split; [right; exact Hin|exact Hne].
Qed.

(** X23. When a connection closes, its room is dropped from the registry
    at once exactly when nobody else is in it.  With no other member the
    close runs through without a pause and the name is unregistered.  With
    another member the close stops to notify: so far the registry is as it
    was and the room has lost the one who left and nothing else; if no other
    connection runs meanwhile, the close ends there, having changed no more.
    If instead the only other member closes meanwhile, that close drops the
    name, and the first close, when it goes on, finds the room empty, pops a
    name that is registered no more, and raises KeyError. *)
Theorem close_drops_the_empty_room (ws : conn) (r : ref) (room : string)
    (s : Server) :
  guilds s !! room = Some r ->
  let begun := counter_close_begin ws r room s in
  counter_close ws r room s = (Done tt, snd begun)
  /\ users (objects (snd begun) r) = dict_pop ws (users (objects s r))
  /\ ((forall other, In other (members (objects s r)) -> other = ws) ->
        fst begun = Done Closed
        /\ guilds (snd begun) = delete room (guilds s)
        /\ users (objects (snd begun) r) = [])
  /\ (forall other,
        In other (members (objects s r)) -> other <> ws ->
        fst begun = Done Waiting
        /\ guilds (snd begun) = guilds s
        /\ queue (objects (snd begun) r) = queue (objects s r)
        /\ media_state (objects (snd begun) r) = media_state (objects s r)
        /\ counter_close_finish r room (snd begun) = (Done tt, snd begun)
        /\ ((forall third,
               In third (members (objects s r)) -> third = ws \/ third = other) ->
            let ended := counter_close_begin other r room (snd begun) in
            fst ended = Done Closed
            /\ guilds (snd ended) = delete room (guilds s)
            /\ counter_close_finish r room (snd ended)
               = (Raised KeyError, snd ended))).
Proof.
  intros Hlook begun.
  destruct (counter_close_begin_cases ws r room s) as [Hu Hbegin].
  cbn zeta in Hu, Hbegin.
  assert (Hq : queue (objects (snd (on_guild r (unregister ws) s)) r)
               = queue (objects s r))
    by (rewrite on_guild_same; reflexivity).
  assert (Hm : media_state (objects (snd (on_guild r (unregister ws) s)) r)
               = media_state (objects s r))
    by (rewrite on_guild_same; reflexivity).
  assert (Hg : guilds (snd (on_guild r (unregister ws) s)) = guilds s)
    by reflexivity.
  unfold counter_close. subst begun. rewrite Hbegin, Hlook.
  set (s1 := snd (on_guild r (unregister ws) s)) in *.
  destruct (dict_pop ws (users (objects s r))) as [|x rest] eqn:Hpop.
  - cbn [fst snd guilds objects].
    split; [reflexivity|]. split; [exact Hu|].
    split; [intros _; repeat split; exact Hu|].
    intros other Hin Hne. exfalso.
    apply (dict_pop_keeps_others ws other (users (objects s r)) Hin Hne Hpop).
  - cbn [fst snd].
    assert (Hfin : counter_close_finish r room s1 = (Done tt, s1))
      by (unfold counter_close_finish; rewrite Hu; reflexivity).
    split; [exact Hfin|]. split; [exact Hu|].
    split; [intros Honly; apply dict_pop_only in Honly; congruence|].
    intros other Hin Hne.
    split; [reflexivity|]. split; [exact Hg|]. split; [exact Hq|].
    split; [exact Hm|]. split; [exact Hfin|].
    intros Htwo.
    destruct (counter_close_begin_cases other r room s1) as [Hu2 Hend].
    cbn zeta in Hu2, Hend |- *. rewrite Hend. clear Hend.
    assert (Hpop2 : dict_pop other (users (objects s1 r)) = []).
    { apply dict_pop_only. intros k' Hin'. rewrite Hu, <- Hpop in Hin'.
      apply dict_pop_members in Hin'. destruct Hin' as [Hin' Hne'].
      destruct (Htwo k' Hin') as [->| ->]; [contradiction Hne'|]; reflexivity. }
    rewrite Hpop2 in Hu2 |- *. rewrite Hg, Hlook. cbn [fst snd guilds].
    split; [reflexivity|]. split; [reflexivity|].
    unfold counter_close_finish. cbn [objects guilds]. rewrite Hu2.
    rewrite lookup_delete_eq. reflexivity.
Qed.

Lemma close_drops_the_empty_room_witness :
  let s := snd (counter_open 2 "/?guild=abc"
                  (snd (counter_open 1 "/?guild=abc"
                          (empty_server (sample_env every_ms))))) in
  let s1 := snd (counter_close_begin 1 0 "abc" s) in
  let s2 := snd (counter_close_begin 2 0 "abc" s1) in
  fst (counter_close_begin 1 0 "abc" s) = Done Waiting
  /\ fst (counter_close_begin 2 0 "abc" s1) = Done Closed
  /\ counter_close_finish 0 "abc" s2 = (Raised KeyError, s2).
Proof.
  cbn zeta.
  destruct (close_drops_the_empty_room 1 0 "abc"
              (snd (counter_open 2 "/?guild=abc"
                      (snd (counter_open 1 "/?guild=abc"
                              (empty_server (sample_env every_ms))))))
              eq_refl) as (_ & _ & _ & H).
  destruct (H 2%nat) as (Hw & _ & _ & _ & _ & Hrace).
  - right. left. reflexivity.
  - discriminate.
  - split; [exact Hw|].
    destruct Hrace as (Hc & _ & Hk).
    + intros third [<-|[<-|[]]]; [left|right]; reflexivity.
    + split; [exact Hc|exact Hk].
Defined.
